(** * Text-patching maintenance scripts: a shallow embedding

    The repository holds four stand-alone Python scripts that rewrite
    TypeScript test sources:

    - [fix-adapter-mocks.py]      (the Mock-Argument Remover),
    - [patch-container.py]        (the Resource-Reset Disabler),
    - [revert-container-patch.py] (the Resource-Reset Restorer),
    - [patch-tests.py]            (the Mock-Argument Inserter).

    A Python [str] is modelled as the list of its code points, the
    built-ins the scripts call ([str.replace], [in], [re.sub], [re.subn],
    [str.strip], [str.splitlines]) as executable functions on such
    lists, and the file system as a finite map from paths to files. *)

From Stdlib Require Import NArith Ascii String List Lia Bool DecimalString DecimalNat.
From stdpp Require Import base option list gmap.

Local Open Scope N_scope.
Local Open Scope nat_scope.

(** ** Python strings *)

(** A [str] is a sequence of Unicode code points. *)
Definition text : Type := list N.

(** Literals of the scripts are written as Rocq strings; all of them are
    ASCII, so a byte is its own code point. *)
Definition txt (s : string) : text := map N_of_ascii (list_ascii_of_string s).

(** [s.startswith(w)] *)
Fixpoint starts_with (w s : text) : bool :=
  match w, s with
  | [], _ => true
  | _ :: _, [] => false
  | a :: w', b :: s' => N.eqb a b && starts_with w' s'
  end.

(** [w in s]: some suffix of [s] starts with [w]. *)
Fixpoint contains (w s : text) : bool :=
  starts_with w s ||
  match s with
  | [] => false
  | _ :: s' => contains w s'
  end.

(** ** Left-to-right substitution

    [str.replace], [re.sub] and [re.subn] all walk the subject from left
    to right.  At the current position they ask for a match; a match of
    [n] characters is replaced and the walk resumes [n] characters
    further, otherwise one character is copied.  A match is also tried at
    the very end of the subject.  [find] gives, for the text at the
    current position, the replacement and the number of characters the
    match covers; [skip] counts the characters of a match that are still
    to be stepped over.  The result pairs the new text with the number of
    substitutions made. *)
Definition emit (rep : text) (r : text * nat) : text * nat :=
  (rep ++ fst r, S (snd r)).

Definition copy (c : N) (r : text * nat) : text * nat :=
  (c :: fst r, snd r).

Fixpoint scan (find : text -> option (text * nat)) (skip : nat) (s : text)
  {struct s} : text * nat :=
  match skip with
  | S k =>
      match s with
      | [] => ([], 0)
      | _ :: s' => scan find k s'
      end
  | O =>
      match find s with
      | Some (rep, n) =>
          match s with
          | [] => (rep, 1)
          | c :: s' =>
              match n with
              | O => emit rep (copy c (scan find 0 s'))
              | S k => emit rep (scan find k s')
              end
          end
      | None =>
          match s with
          | [] => ([], 0)
          | c :: s' => copy c (scan find 0 s')
          end
      end
  end.

(** Whether [find] has a match at some position of [s], the end
    included. *)
Fixpoint found {A : Type} (find : text -> option A) (s : text) : bool :=
  match find s with
  | Some _ => true
  | None =>
      match s with
      | [] => false
      | _ :: s' => found find s'
      end
  end.

(** The matcher of [str.replace(old, new)]. *)
Definition find_literal (old new : text) (s : text) : option (text * nat) :=
  if starts_with old s then Some (new, length old) else None.

(** [s.replace(old, new)] *)
Definition replace (old new s : text) : text :=
  fst (scan (find_literal old new) 0 s).

(** ** The file system and the console

    A path names a file that can be read or not (it is a directory, it is
    not valid UTF-8, permission is denied, ...) and that can be opened for
    writing or not.  A failure carries the text Python prints for the
    exception.

    The content of a file is the text a read in text mode returns.  Such
    a read gives every line end as a line feed, and a write in text mode
    puts the platform's line end for each line feed, so a text without
    carriage return that is written is the text read back, while the
    bytes of the line ends on disk are not told apart here.  Paths are
    the keys of a map: two paths that reach one file through a link are
    two entries.  [print] stands for a console that can show the line. *)
Inductive read_result : Type :=
| ReadOk (content : text)
| ReadErr (cause : text).

Record file : Type := File {
  on_read : read_result;
  on_write : option text   (* [Some cause]: opening for writing raises *)
}.

Abbreviation fsys := (gmap text file).

Definition enoent (p : text) : text :=
  txt "[Errno 2] No such file or directory: '" ++ p ++ txt "'".

(** [os.path.exists(p)] *)
Definition path_exists (fs : fsys) (p : text) : bool :=
  match fs !! p with Some _ => true | None => false end.

(** [open(p, 'r', encoding='utf-8').read()] *)
Definition read_file (fs : fsys) (p : text) : read_result :=
  match fs !! p with
  | Some f => on_read f
  | None => ReadErr (enoent p)
  end.

(** [open(p, 'w', encoding='utf-8').write(new)]: either the file then
    holds [new], or opening raised and nothing changed. *)
Definition write_file (fs : fsys) (p : text) (new : text) : fsys + text :=
  match fs !! p with
  | Some f =>
      match on_write f with
      | Some cause => inr cause
      | None => inl (<[p := File (ReadOk new) None]> fs)
      end
  | None => inl (<[p := File (ReadOk new) None]> fs)
  end.

(** The state a script runs in: the files, and the lines printed so far. *)
Record world : Type := World {
  files_of : fsys;
  stdout : list text
}.

Definition print (line : text) (w : world) : world :=
  World (files_of w) (stdout w ++ [line]).

(** ** patch-container.py *)
Module PatchContainer.

Definition live : text := txt "container.reset();".

Definition annotated : text :=
  txt "// container.reset(); // Removed to preserve src/container.ts registrations".

(** The transformation of one file's content. *)
Definition disable (content : text) : text := replace live annotated content.

(** The body of the [for file in files] loop. *)
Definition patch_file (p : text) (w : world) : world :=
  match read_file (files_of w) p with
  | ReadErr e => print (txt "Error patching " ++ p ++ txt ": " ++ e) w
  | ReadOk content =>
      if contains live content then
        match write_file (files_of w) p (disable content) with
        | inr e => print (txt "Error patching " ++ p ++ txt ": " ++ e) w
        | inl fs' =>
            print (txt "Patched container.reset() in " ++ p) (World fs' (stdout w))
        end
      else w
  end.

(** The script, given what [glob.glob] returned. *)
Definition main (files : list text) (w : world) : world :=
  print (txt "Container patching complete.") (foldl (fun w p => patch_file p w) w files).

End PatchContainer.

(** ** revert-container-patch.py *)
Module RevertContainerPatch.

Definition live : text := txt "container.reset();".

Definition annotated : text :=
  txt "// container.reset(); // Removed to preserve src/container.ts registrations".

Definition restore (content : text) : text := replace annotated live content.

Definition revert_file (p : text) (w : world) : world :=
  match read_file (files_of w) p with
  | ReadErr e => print (txt "Error processing " ++ p ++ txt ": " ++ e) w
  | ReadOk content =>
      if contains annotated content then
        match write_file (files_of w) p (restore content) with
        | inr e => print (txt "Error processing " ++ p ++ txt ": " ++ e) w
        | inl fs' =>
            print (txt "Reverted container.reset() in " ++ p) (World fs' (stdout w))
        end
      else w
  end.

Definition main (files : list text) (w : world) : world :=
  print (txt "Revert complete.") (foldl (fun w p => revert_file p w) w files).

End RevertContainerPatch.

(** ** Regular expressions

    The fragment of [re] the two patterns are written in: literal
    characters, the classes [\w] and [\s], concatenation, alternation, and
    the greedy star over a class.  [run] is a backtracking matcher in
    continuation-passing style: [run r k s] matches [r] at the start of
    [s] and hands the rest of the subject to [k]; when [k] fails the
    matcher backtracks into [r], the first alternative and the longest
    repetition being tried first, as [re] does. *)
Inductive regex : Type :=
| Eps
| Chr (c : N)
| Cls (p : N -> bool)
| Cat (r1 r2 : regex)
| Alt (r1 r2 : regex)
| Star (p : N -> bool).

Fixpoint star {A : Type} (p : N -> bool) (k : text -> option A) (s : text)
  : option A :=
  match s with
  | c :: s' =>
      if p c then
        match star p k s' with
        | Some r => Some r
        | None => k s
        end
      else k s
  | [] => k s
  end.

Fixpoint run {A : Type} (r : regex) (k : text -> option A) (s : text)
  : option A :=
  match r with
  | Eps => k s
  | Chr c =>
      match s with
      | x :: s' => if N.eqb x c then k s' else None
      | [] => None
      end
  | Cls p =>
      match s with
      | x :: s' => if p x then k s' else None
      | [] => None
      end
  | Cat r1 r2 => run r1 (run r2 k) s
  | Alt r1 r2 =>
      match run r1 k s with
      | Some x => Some x
      | None => run r2 k s
      end
  | Star p => star p k s
  end.

(** [p+] *)
Definition Plus (p : N -> bool) : regex := Cat (Cls p) (Star p).

(** A run of escaped literal characters. *)
Definition lit (w : string) : regex :=
  fold_right (fun c r => Cat (Chr c) r) Eps (txt w).

(** Juxtaposition of the pieces of a pattern. *)
Definition seq (rs : list regex) : regex := fold_right Cat Eps rs.

(** ['|'.join(ws)] *)
Fixpoint any_of (ws : list string) : regex :=
  match ws with
  | [] => Eps
  | [w] => lit w
  | w :: ws' => Alt (lit w) (any_of ws')
  end.

(** ** What the interpreter and the platform supply

    [\w], [\s] and [str.strip] are Unicode-aware on [str].  Their
    behaviour on ASCII is fixed; beyond ASCII it is read off the
    interpreter's Unicode database, which is taken as given here, as is
    [os.sep]. *)
Class Host : Type := {
  uni_alnum : N -> bool;   (* [ch.isalnum()] beyond ASCII *)
  uni_space : N -> bool;   (* [ch.isspace()] beyond ASCII *)
  os_sep : text            (* [os.sep] *)
}.

Definition between (lo hi c : N) : bool := N.leb lo c && N.leb c hi.

Definition ascii_alnum (c : N) : bool :=
  between 48 57 c || between 65 90 c || between 97 122 c.

Definition ascii_space (c : N) : bool :=
  between 9 13 c || between 28 32 c.

Section Classes.
Context {H : Host}.

(** [\w] *)
Definition is_word (c : N) : bool :=
  if N.ltb c 128 then ascii_alnum c || N.eqb c 95 else uni_alnum c.

(** [\s], and the characters [str.strip()] removes *)
Definition is_space (c : N) : bool :=
  if N.ltb c 128 then ascii_space c else uni_space c.

Fixpoint lstrip (s : text) : text :=
  match s with
  | c :: s' => if is_space c then lstrip s' else s
  | [] => []
  end.

(** [s.strip()] *)
Definition strip (s : text) : text := rev (lstrip (rev (lstrip s))).
End Classes.

(** A host whose database knows no letter and no blank beyond ASCII, and
    whose separator is the slash. *)
Definition ascii_host : Host :=
  {| uni_alnum := fun _ => false; uni_space := fun _ => false; os_sep := txt "/" |}.

(** The same host with the backslash as separator. *)
Definition backslash_host : Host :=
  {| uni_alnum := fun _ => false; uni_space := fun _ => false; os_sep := [92%N] |}.

(** [s.splitlines()]: the line boundaries of [str.splitlines]; a [\n]
    right after a [\r] belongs to the same boundary. *)
Definition is_linebreak (c : N) : bool :=
  existsb (N.eqb c) [10; 11; 12; 13; 28; 29; 30; 133; 8232; 8233]%N.

Fixpoint splitlines_go (cur : text) (after_cr : bool) (s : text) : list text :=
  match s with
  | [] => match cur with [] => [] | _ => [rev cur] end
  | c :: s' =>
      if after_cr && N.eqb c 10 then splitlines_go cur false s'
      else if is_linebreak c then rev cur :: splitlines_go [] (N.eqb c 13) s'
      else splitlines_go (c :: cur) false s'
  end.

Definition splitlines (s : text) : list text := splitlines_go [] false s.

(** [f"{n}"] for a count *)
Definition str_of_nat (n : nat) : text :=
  txt (NilEmpty.string_of_uint (Nat.to_uint n)).

(** ** fix-adapter-mocks.py *)
Module FixAdapterMocks.
Section Script.
Context {H : Host}.

(** Group 1 of the pattern, and what follows it. *)
Definition group1 : regex :=
  seq [lit "expect(userMgmtAdapterMock."; Plus is_word; lit ").toHaveBeenCalledWith("].

Definition tail : regex :=
  seq [lit "expect.any(String),"; Star is_space].

Definition pattern : regex := Cat group1 tail.

(** [pattern.match] at the start of [s]: the subject after group 1 and
    the subject after the whole match. *)
Definition match_at (s : text) : option (text * text) :=
  run group1 (fun s1 => run tail (fun s2 => Some (s1, s2)) s1) s.

(** The replacement template [\1] is the text of group 1. *)
Definition find (s : text) : option (text * nat) :=
  match match_at s with
  | Some (s1, s2) => Some (take (length s - length s1) s, length s - length s2)
  | None => None
  end.

(** [pattern.subn(r'\1', content)] *)
Definition subn (content : text) : text * nat := scan find 0 content.

(** The body of the loop; [total] is [total_fixes]. *)
Definition fix_file (p : text) (st : world * nat) : world * nat :=
  let (w, total) := st in
  match read_file (files_of w) p with
  | ReadErr e => (print (txt "Error processing " ++ p ++ txt ": " ++ e) w, total)
  | ReadOk content =>
      let (new_content, count) := subn content in
      if 0 <? count then
        match write_file (files_of w) p new_content with
        | inr e => (print (txt "Error processing " ++ p ++ txt ": " ++ e) w, total)
        | inl fs' =>
            (print (txt "Fixed " ++ str_of_nat count
                    ++ txt " adapter mock assertions in " ++ p)
                   (World fs' (stdout w)),
             total + count)
        end
      else (w, total)
  end.

(** The script, given the concatenation of the two [glob.glob] results. *)
Definition main (files_to_fix : list text) (w : world) : world :=
  let (w', total) := foldl (fun st p => fix_file p st) (w, 0) files_to_fix in
  print (10%N :: txt "Total adapter mock fixes: " ++ str_of_nat total) w'.
End Script.
End FixAdapterMocks.

(** ** patch-tests.py *)
Module PatchTests.
Section Script.
Context {H : Host}.

Definition manifest : text := txt "failed-tests.txt".

(** [set(f.strip() for f in files if f.strip())] *)
Definition manifest_paths (content : text) : gset text :=
  list_to_set
    (map strip
       (filter (fun f => strip f <> []) (splitlines content))).

Definition mocks : list string :=
  [ "userProfileRepositoryMock"; "policyRepositoryMock"; "roleRepositoryMock";
    "permissionRepositoryMock"; "assignmentRepositoryMock"; "userMgmtAdapterMock";
    "idpAdapterMock"; "userRepositoryMock"; "mockUserProfileRepository";
    "mockPolicyRepository"; "mockRoleRepository"; "mockPermissionRepository";
    "mockAssignmentRepository"; "mockUserMgmtAdapter" ]%string.

Definition pattern : regex :=
  seq [ lit "expect"; Star is_space; Chr 40; Star is_space;
        any_of mocks; Chr 46; Plus is_word; Star is_space; Chr 41;
        lit ".toHaveBeenCalledWith"; Star is_space; Chr 40 ].

Definition placeholder : text := txt "expect.any(String), ".

(** [pattern.match] at the start of [s]: the subject after the match. *)
Definition match_at (s : text) : option text := run pattern Some s.

(** [replacer]: the whole match, then the placeholder. *)
Definition find (s : text) : option (text * nat) :=
  match match_at s with
  | Some rest =>
      let n := length s - length rest in
      Some (take n s ++ placeholder, n)
  | None => None
  end.

(** [pattern.sub(replacer, content)] *)
Definition sub (content : text) : text := fst (scan find 0 content).

Definition doubled : text := txt "expect.any(String), expect.any(String)".
Definition single : text := txt "expect.any(String)".
Definition dangling : text := txt "expect.any(String), )".
Definition closed : text := txt "expect.any(String))".

(** The transformation of one file's content. *)
Definition insert (content : text) : text :=
  replace dangling closed (replace doubled single (sub content)).

(** [f.replace('/', os.sep)] *)
Definition filepath_of (f : text) : text := replace (txt "/") os_sep f.

(** The body of the loop. *)
Definition patch_file (f : text) (w : world) : world :=
  let filepath := filepath_of f in
  if negb (path_exists (files_of w) filepath) then
    print (txt "Skipping " ++ filepath ++ txt ", file not found.") w
  else
    match read_file (files_of w) filepath with
    | ReadErr e => print (txt "Error processing " ++ filepath ++ txt ": " ++ e) w
    | ReadOk content =>
        let new_content := insert content in
        if decide (content = new_content) then w
        else
          match write_file (files_of w) filepath new_content with
          | inr e => print (txt "Error processing " ++ filepath ++ txt ": " ++ e) w
          | inl fs' =>
              print (txt "Fixed mock params in " ++ filepath) (World fs' (stdout w))
          end
    end.

Definition patch_all (files : list text) (w : world) : world :=
  foldl (fun w f => patch_file f w) w files.

(** How a run ends: the manifest could not be read and the exception
    left the script, or the loop ran to its end. *)
Inductive outcome : Type :=
| Aborted (cause : text) (w : world)
| Finished (w : world).

(** The script.  [list(set(...))] fixes no order on the paths: a run
    visits them in some order, each once. *)
Inductive runs (w : world) : outcome -> Prop :=
| runs_abort cause :
    read_file (files_of w) manifest = ReadErr cause ->
    runs w (Aborted cause w)
| runs_finish content files :
    read_file (files_of w) manifest = ReadOk content ->
    files ≡ₚ elements (manifest_paths content) ->
    runs w (Finished (print (txt "Python test patcher finished.") (patch_all files w))).
End Script.
End PatchTests.

(** * Properties *)

(** ** Prefixes and occurrences *)
Section Prefix.
Implicit Types w s z : text.

Lemma starts_with_app w z : starts_with w (w ++ z) = true.
Proof.
  induction w as [|a w IH]; simpl; [reflexivity|].
  rewrite N.eqb_refl. exact IH.
Qed.

Lemma starts_with_true w s : starts_with w s = true <-> exists z, s = w ++ z.
Proof.
  split.
  - revert s. induction w as [|a w IH]; intros s Hs.
    + exists s. reflexivity.
    + destruct s as [|b s]; simpl in Hs; [discriminate|].
      apply andb_true_iff in Hs as [Hab Hs]. apply N.eqb_eq in Hab as ->.
      destruct (IH _ Hs) as [z ->]. exists z. reflexivity.
  - intros [z ->]. apply starts_with_app.
Qed.

Lemma starts_with_cons a w b s :
  starts_with (a :: w) (b :: s) = N.eqb a b && starts_with w s.
Proof. reflexivity. Qed.

Lemma starts_with_nil w : starts_with w [] = true -> w = [].
Proof. destruct w; [reflexivity | discriminate]. Qed.

(** A prefix of a text is a prefix of any extension of it. *)
Lemma starts_with_weaken w s z :
  starts_with w s = true -> starts_with w (s ++ z) = true.
Proof.
  intros [y ->]%starts_with_true. rewrite <- app_assoc. apply starts_with_app.
Qed.

Lemma contains_here w s : starts_with w s = true -> contains w s = true.
Proof. intros Hw. destruct s; simpl in *; rewrite Hw; reflexivity. Qed.

Lemma contains_cons w c s : contains w s = true -> contains w (c :: s) = true.
Proof. intros Hw. simpl. rewrite Hw. apply orb_true_r. Qed.

Lemma contains_app_r w u s : contains w s = true -> contains w (u ++ s) = true.
Proof. intros Hw. induction u; simpl; [exact Hw|]. rewrite IHu. apply orb_true_r. Qed.

Lemma contains_true w s :
  contains w s = true <-> exists u z, s = u ++ w ++ z.
Proof.
  split.
  - induction s as [|c s IH]; simpl; intros Hc.
    + rewrite orb_false_r in Hc. apply starts_with_true in Hc as [z ->].
      exists [], z. reflexivity.
    + apply orb_true_iff in Hc as [Hc|Hc].
      * apply starts_with_true in Hc as [z ->]. exists [], z. reflexivity.
      * destruct (IH Hc) as (u & z & ->). exists (c :: u), z. reflexivity.
  - intros (u & z & ->). apply contains_app_r, contains_here, starts_with_app.
Qed.

Lemma contains_false_here w s : contains w s = false -> starts_with w s = false.
Proof.
  intros Hc. destruct (starts_with w s) eqn:E; [|reflexivity].
  apply contains_here in E. congruence.
Qed.

Lemma contains_false_cons w c s : contains w (c :: s) = false -> contains w s = false.
Proof. simpl. intros [_ ?]%orb_false_iff. assumption. Qed.

Lemma contains_false_app_r w u s : contains w (u ++ s) = false -> contains w s = false.
Proof.
  intros Hc. destruct (contains w s) eqn:E; [|reflexivity].
  apply (contains_app_r w u) in E. congruence.
Qed.
End Prefix.

(** ** The walk of [scan] *)
Section Scan.
Variable find : text -> option (text * nat).

Lemma scan_skip k s :
  k <= length s -> scan find k s = scan find 0 (drop k s).
Proof.
  revert k. induction s as [|c s IH]; intros [|k] Hk; simpl in *; try reflexivity; try lia.
  apply IH. lia.
Qed.

Lemma scan_miss c s :
  find (c :: s) = None -> scan find 0 (c :: s) = copy c (scan find 0 s).
Proof. intros Hf. simpl. rewrite Hf. reflexivity. Qed.

Lemma scan_hit rep n s :
  find s = Some (rep, n) -> 0 < n <= length s ->
  scan find 0 s = emit rep (scan find 0 (drop n s)).
Proof.
  intros Hf [Hn Hl]. destruct s as [|c s]; simpl in Hl; [lia|].
  destruct n as [|k]; [lia|]. simpl. rewrite Hf.
  rewrite scan_skip by lia. reflexivity.
Qed.

Lemma found_false_here s : found find s = false -> find s = None.
Proof. destruct s; simpl; destruct (find _); congruence. Qed.

Lemma found_false_cons c s : found find (c :: s) = false -> found find s = false.
Proof. simpl. destruct (find _); congruence. Qed.

(** A text in which the pattern occurs nowhere comes back as it is,
    with a count of zero. *)
Lemma scan_not_found s : found find s = false -> scan find 0 s = (s, 0).
Proof.
  induction s as [|c s IH]; intros Hf.
  - simpl in *. destruct (find []); [discriminate|reflexivity].
  - rewrite scan_miss by (apply found_false_here, Hf).
    rewrite IH by (eapply found_false_cons; exact Hf). reflexivity.
Qed.

(** Where no match is found the text is copied as it stands. *)
Lemma scan_none u s :
  (forall i, i < length u -> find (drop i u ++ s) = None) ->
  scan find 0 (u ++ s) = (u ++ fst (scan find 0 s), snd (scan find 0 s)).
Proof.
  induction u as [|c u IH]; intros Hu; simpl app.
  - destruct (scan find 0 s); reflexivity.
  - rewrite scan_miss by (apply (Hu 0); simpl; lia).
    rewrite IH; [reflexivity|].
    intros i Hi. apply (Hu (S i)). simpl. lia.
Qed.
End Scan.

(** ** [str.replace] with a non-empty needle *)
Section Replace.
Variables old new : text.
Hypothesis old_nonempty : old <> [].

Lemma replace_nil : replace old new [] = [].
Proof.
  unfold replace, find_literal. simpl.
  destruct old; [contradiction|reflexivity].
Qed.

Lemma replace_hit z : replace old new (old ++ z) = new ++ replace old new z.
Proof.
  unfold replace.
  rewrite (scan_hit _ new (length old)).
  - simpl. rewrite drop_app_length. reflexivity.
  - unfold find_literal. rewrite starts_with_app. reflexivity.
  - rewrite length_app. destruct old; [contradiction|simpl; lia].
Qed.

Lemma replace_miss c s :
  starts_with old (c :: s) = false ->
  replace old new (c :: s) = c :: replace old new s.
Proof.
  intros Hs. unfold replace. rewrite scan_miss; [reflexivity|].
  unfold find_literal. rewrite Hs. reflexivity.
Qed.

(** Induction along the walk of [replace]. *)
Lemma replace_ind (P : list N -> Prop) :
  P [] ->
  (forall z, P z -> P (old ++ z)) ->
  (forall c s, starts_with old (c :: s) = false -> P s -> P (c :: s)) ->
  forall s : list N, P s.
Proof.
  intros Hnil Hhit Hmiss s.
  remember (length s) as n eqn:Hn. revert s Hn.
  induction n as [n IH] using lt_wf_ind. intros s ->.
  destruct s as [|c s]; [exact Hnil|].
  destruct (starts_with old (c :: s)) eqn:E.
  - apply starts_with_true in E as [z E]. rewrite E. apply Hhit.
    apply (IH (length z)); [|reflexivity].
    rewrite E, length_app. destruct old; [contradiction|simpl; lia].
  - apply Hmiss; [exact E|]. apply (IH (length s)); [simpl; lia|reflexivity].
Qed.

Lemma replace_absent s : contains old s = false -> replace old new s = s.
Proof.
  induction s as [|c s IH]; intros Hc; [apply replace_nil|].
  rewrite replace_miss by (apply contains_false_here; exact Hc).
  rewrite IH; [reflexivity|]. eapply contains_false_cons; exact Hc.
Qed.

(** Text in which no occurrence of the needle starts is copied. *)
Lemma replace_none u s :
  (forall i, i < length u -> starts_with old (drop i u ++ s) = false) ->
  replace old new (u ++ s) = u ++ replace old new s.
Proof.
  intros Hu. unfold replace. rewrite scan_none; [reflexivity|].
  intros i Hi. unfold find_literal. rewrite Hu by exact Hi. reflexivity.
Qed.
End Replace.

(** Replacing a single character goes character by character. *)
Lemma replace_char (c : N) (new s : text) :
  replace [c] new s = flat_map (fun x => if N.eqb x c then new else [x]) s.
Proof.
  assert (Hne : [c] <> []) by discriminate.
  induction s as [|x s IH]; [apply (replace_nil [c] new Hne)|].
  cbn [flat_map]. destruct (N.eqb x c) eqn:E.
  - apply N.eqb_eq in E. subst x.
    change (c :: s) with ([c] ++ s). rewrite (replace_hit [c] new Hne), IH.
    reflexivity.
  - rewrite (replace_miss [c] new).
    + rewrite IH. reflexivity.
    + rewrite starts_with_cons, N.eqb_sym, E. reflexivity.
Qed.

(** What a replacement can hold: characters of the text and
    characters of the new piece. *)
Lemma replace_mem (old new : text) (x : N) (s : text) :
  old <> [] -> In x (replace old new s) -> In x s \/ In x new.
Proof.
  intros Hne. induction s as [|z IH|c s Hs IH] using (replace_ind old Hne).
  - rewrite (replace_nil old new Hne). intros [].
  - rewrite (replace_hit old new Hne). intros [Hx|Hx]%in_app_or; [right; exact Hx|].
    destruct (IH Hx) as [Hz|Hn]; [left; apply in_or_app; right; exact Hz | right; exact Hn].
  - rewrite (replace_miss old new c s Hs). intros [<-|Hx]; [left; left; reflexivity|].
    destruct (IH Hx) as [Hz|Hn]; [left; right; exact Hz | right; exact Hn].
Qed.

(** ** The Disabler and the Restorer *)
Section Container.
Import PatchContainer.

Definition trailer : text :=
  txt " // Removed to preserve src/container.ts registrations".

Definition slash : N := 47.

Definition slash_free (w : text) : bool :=
  forallb (fun x => negb (N.eqb x slash)) w.

(** The annotated comment wraps the statement it disables. *)
Lemma annotated_split : annotated = [slash; slash; 32%N] ++ live ++ trailer.
Proof. reflexivity. Qed.

Lemma live_nonempty : live <> [].
Proof. discriminate. Qed.

Lemma annotated_nonempty : annotated <> [].
Proof. discriminate. Qed.

Lemma restorer_strings :
  RevertContainerPatch.live = live /\ RevertContainerPatch.annotated = annotated.
Proof. split; reflexivity. Qed.

Lemma disable_nil : disable [] = [].
Proof. apply replace_nil, live_nonempty. Qed.

Lemma disable_hit z : disable (live ++ z) = annotated ++ disable z.
Proof. apply replace_hit, live_nonempty. Qed.

Lemma disable_miss c s :
  starts_with live (c :: s) = false -> disable (c :: s) = c :: disable s.
Proof. apply replace_miss. Qed.

Lemma disable_absent s : contains live s = false -> disable s = s.
Proof. apply replace_absent, live_nonempty. Qed.

(** The comment is longer than the statement: the text never shrinks,
    and grows as soon as one statement is found. *)
Lemma disable_length s :
  length s <= length (disable s) /\
  (contains live s = true -> length s < length (disable s)).
Proof.
  induction s as [|z [IH1 IH2]|c s Hc [IH1 IH2]] using (replace_ind live live_nonempty).
  - rewrite disable_nil. split; [lia|discriminate].
  - rewrite disable_hit, !length_app.
    change (length annotated) with 75. change (length live) with 18. lia.
  - rewrite disable_miss by exact Hc. simpl length. split; [lia|].
    cbn [contains]. rewrite Hc. simpl. intros Hs%IH2. lia.
Qed.

(** The statement is in the output exactly when it was in the input:
    every comment the Disabler writes carries it. *)
Lemma disable_contains s : contains live (disable s) = contains live s.
Proof.
  induction s as [|z IH|c s Hc IH] using (replace_ind live live_nonempty).
  - rewrite disable_nil. reflexivity.
  - rewrite disable_hit, (contains_here live (live ++ z)) by apply starts_with_app.
    apply contains_true. exists [slash; slash; 32%N], (trailer ++ disable z).
    rewrite annotated_split, <- !app_assoc. reflexivity.
  - rewrite disable_miss by exact Hc. cbn [contains]. rewrite IH, Hc.
    destruct (contains live s) eqn:E; [apply orb_true_r|].
    rewrite disable_absent by exact E. rewrite Hc. reflexivity.
Qed.

(** A word without a slash at the head of the output was at the head
    of the input: whatever the Disabler writes begins with a slash. *)
Lemma disable_head w s :
  slash_free w = true ->
  starts_with w (disable s) = true -> starts_with w s = true.
Proof.
  revert s. induction w as [|a w IH]; intros s Hw Hs; [reflexivity|].
  simpl in Hw. apply andb_true_iff in Hw as [Ha Hw].
  destruct s as [|c s]; [rewrite disable_nil in Hs; discriminate|].
  destruct (starts_with live (c :: s)) eqn:E.
  - apply starts_with_true in E as [z E]. rewrite E, disable_hit, annotated_split in Hs.
    simpl in Hs. apply andb_true_iff in Hs as [Hs _].
    rewrite Hs in Ha. discriminate.
  - rewrite disable_miss in Hs by exact E. simpl in Hs |- *.
    apply andb_true_iff in Hs as [-> Hs]. simpl. apply IH; assumption.
Qed.

Lemma starts_with_app_l (w v s : text) :
  starts_with (w ++ v) s = true -> starts_with w s = true.
Proof.
  intros [z ->]%starts_with_true. rewrite <- app_assoc. apply starts_with_app.
Qed.

(** The output never begins with the bare statement. *)
Lemma disable_not_live s : starts_with live (disable s) = false.
Proof.
  destruct (starts_with live (disable s)) eqn:E; [|reflexivity].
  pose proof (disable_head live s eq_refl E) as [z Hz]%starts_with_true.
  rewrite Hz, disable_hit in E. vm_compute in E. discriminate.
Qed.

(** One step of the walk: the output begins with [a], which is not a
    slash, only if the input does. *)
Lemma disable_step a w s :
  N.eqb a slash = false ->
  starts_with (a :: w) (disable s) = true ->
  exists s', s = a :: s' /\ starts_with w (disable s') = true.
Proof.
  intros Ha Hs. destruct s as [|c s]; [rewrite disable_nil in Hs; discriminate|].
  destruct (starts_with live (c :: s)) eqn:E.
  - apply starts_with_true in E as [z E]. rewrite E, disable_hit, annotated_split in Hs.
    simpl in Hs. apply andb_true_iff in Hs as [Hs _]. congruence.
  - rewrite disable_miss in Hs by exact E. simpl in Hs.
    apply andb_true_iff in Hs as [->%N.eqb_eq Hs]. eauto.
Qed.

(** Where the Disabler copies a character, no annotated comment starts
    in its output: the comments in the output are the ones it wrote. *)
Lemma disable_no_stray c s :
  starts_with live (c :: s) = false ->
  starts_with annotated (c :: disable s) = false.
Proof.
  intros Hc. destruct (starts_with annotated (c :: disable s)) eqn:E; [|reflexivity].
  exfalso. rewrite annotated_split in E.
  change ([slash; slash; 32%N] ++ live ++ trailer)
    with (slash :: slash :: 32%N :: live ++ trailer) in E.
  rewrite starts_with_cons in E. apply andb_true_iff in E as [_ E].
  (* the second slash *)
  destruct s as [|c1 s]; [rewrite disable_nil in E; discriminate|].
  destruct (starts_with live (c1 :: s)) eqn:E1.
  { apply starts_with_true in E1 as [z E1].
    rewrite E1, disable_hit in E. vm_compute in E. discriminate. }
  rewrite disable_miss, starts_with_cons in E by exact E1.
  apply andb_true_iff in E as [_ E].
  (* the blank, then the statement *)
  apply disable_step in E as (s' & -> & E); [|reflexivity].
  apply starts_with_app_l in E. rewrite disable_not_live in E. discriminate.
Qed.

(** Every statement found leaves a marker. *)
Lemma disable_marks s :
  contains live s = true -> contains annotated (disable s) = true.
Proof.
  induction s as [|z IH|c s Hc IH] using (replace_ind live live_nonempty).
  - discriminate.
  - intros _. rewrite disable_hit. apply contains_here, starts_with_app.
  - cbn [contains]. rewrite Hc. simpl orb. intros Hs.
    rewrite disable_miss by exact Hc. apply contains_cons, IH, Hs.
Qed.

Lemma restore_disable s : RevertContainerPatch.restore (disable s) = s.
Proof.
  unfold RevertContainerPatch.restore.
  change RevertContainerPatch.annotated with annotated.
  change RevertContainerPatch.live with live.
  induction s as [|z IH|c s Hc IH] using (replace_ind live live_nonempty).
  - rewrite disable_nil. apply replace_nil, annotated_nonempty.
  - rewrite disable_hit, replace_hit by apply annotated_nonempty.
    rewrite IH. reflexivity.
  - rewrite disable_miss by exact Hc.
    rewrite replace_miss by (apply disable_no_stray; exact Hc).
    rewrite IH. reflexivity.
Qed.

(** C1, as amended.  Applying the Disabler a second time changes
    nothing exactly when the content holds no [container.reset();]:
    the annotated comment still carries the statement text, so the
    output of a disable that found a statement holds it again, and a
    second run annotates it once more.  One run of the Restorer then
    gives the once-disabled content back. *)
Theorem disable_twice (content : text) :
  (disable (disable content) = disable content <-> contains live content = false)
  /\ contains live (disable content) = contains live content
  /\ RevertContainerPatch.restore (disable (disable content)) = disable content.
Proof.
  split; [|split; [apply disable_contains | apply restore_disable]]. split.
  - intros Heq. destruct (contains live content) eqn:E; [|reflexivity].
    rewrite <- disable_contains in E.
    apply (proj2 (disable_length (disable content))) in E.
    rewrite Heq in E. lia.
  - intros E. rewrite (disable_absent content E). apply disable_absent, E.
Qed.

(** C1 as stated fails: disabling the bare statement twice is not
    disabling it once. *)
Lemma disable_twice_differs :
  disable (disable (txt "container.reset();")) <> disable (txt "container.reset();").
Proof. vm_compute. discriminate. Qed.

(** C2.  On content holding the live statement the Disabler changes
    the content, its output holds the marker the Restorer looks for,
    and the Restorer gives the original content back, character for
    character. *)
Theorem disable_then_restore (content : text) :
  contains live content = true ->
  disable content <> content
  /\ contains RevertContainerPatch.annotated (disable content) = true
  /\ RevertContainerPatch.restore (disable content) = content.
Proof.
  intros Hc. split; [|split].
  - intros Heq. apply (proj2 (disable_length content)) in Hc.
    rewrite Heq in Hc. lia.
  - change RevertContainerPatch.annotated with annotated.
    apply disable_marks, Hc.
  - apply restore_disable.
Qed.
End Container.

Lemma disable_then_restore_witness :
  let content := txt "beforeEach(() => { container.reset(); });" in
  PatchContainer.disable content <> content
  /\ contains RevertContainerPatch.annotated (PatchContainer.disable content) = true
  /\ RevertContainerPatch.restore (PatchContainer.disable content) = content.
Proof. apply disable_then_restore. reflexivity. Defined.

(** ** Worked examples *)
Section Examples.
Context {H : Host}.

(** C4.  The Remover turns the spec's sample line into the same line
    without the leading placeholder, and counts one fix. *)
Theorem remover_example :
  FixAdapterMocks.subn
    (txt "expect(userMgmtAdapterMock.createUser).toHaveBeenCalledWith(expect.any(String), tenantId, payload)")
  = (txt "expect(userMgmtAdapterMock.createUser).toHaveBeenCalledWith(tenantId, payload)", 1).
Proof. vm_compute. reflexivity. Qed.

(** C5.  [policyRepositoryMock] is one of the known mocks, and the
    Inserter puts the placeholder in front of the sample line's
    argument. *)
Theorem inserter_example :
  In "policyRepositoryMock"%string PatchTests.mocks
  /\ PatchTests.insert
       (txt "expect(policyRepositoryMock.save).toHaveBeenCalledWith(policy)")
     = txt "expect(policyRepositoryMock.save).toHaveBeenCalledWith(expect.any(String), policy)".
Proof. split; [simpl; tauto | vm_compute; reflexivity]. Qed.

Definition stray_doubled : text :=
  txt "foo(expect.any(String), expect.any(String))".

Definition stray_dangling : text :=
  txt "bar(expect.any(String), )".

(** C10.  The two clean-up replacements run over the whole content: in
    each of these texts the call pattern matches at no position, yet the
    Inserter rewrites the doubled placeholder to a single one, and the
    placeholder with a dangling separator to a closed one. *)
Theorem cleanup_is_global :
  (found PatchTests.match_at stray_doubled = false
   /\ contains PatchTests.doubled stray_doubled = true
   /\ PatchTests.sub stray_doubled = stray_doubled
   /\ PatchTests.insert stray_doubled = txt "foo(expect.any(String))")
  /\ (found PatchTests.match_at stray_dangling = false
      /\ contains PatchTests.dangling stray_dangling = true
      /\ PatchTests.sub stray_dangling = stray_dangling
      /\ PatchTests.insert stray_dangling = txt "bar(expect.any(String))").
Proof. repeat split; vm_compute; reflexivity. Qed.
End Examples.

(** ** Files that are left alone, and failures *)
Section Runs.
Context {H : Host}.

Lemma read_ok_exists fs p content :
  read_file fs p = ReadOk content -> path_exists fs p = true.
Proof. unfold read_file, path_exists. destruct (fs !! p); [reflexivity|discriminate]. Qed.

Lemma remover_not_found content :
  found FixAdapterMocks.find content = false ->
  FixAdapterMocks.subn content = (content, 0).
Proof. apply scan_not_found. Qed.

Lemma inserter_not_found content :
  found PatchTests.find content = false ->
  contains PatchTests.doubled content = false ->
  contains PatchTests.dangling content = false ->
  PatchTests.insert content = content.
Proof.
  intros Hf Hd Hg. unfold PatchTests.insert, PatchTests.sub.
  rewrite scan_not_found by exact Hf. simpl fst.
  rewrite (replace_absent PatchTests.doubled) by (discriminate || exact Hd).
  apply replace_absent; [discriminate | exact Hg].
Qed.

Lemma fix_file_quiet (w : world) (p content : text) (total : nat) :
  read_file (files_of w) p = ReadOk content ->
  found FixAdapterMocks.find content = false ->
  FixAdapterMocks.fix_file p (w, total) = (w, total).
Proof.
  intros Hr Hf. unfold FixAdapterMocks.fix_file.
  rewrite Hr, remover_not_found by assumption. reflexivity.
Qed.

(** C7.  A readable file in which a utility finds nothing to do is left
    as it is: the transformation gives the content back unchanged, and
    the utility's pass over the file neither writes it nor prints a line
    nor, for the Remover, adds to the count of fixes. *)
Theorem no_match_no_write (w : world) (p content : text) :
  read_file (files_of w) p = ReadOk content ->
  (found FixAdapterMocks.find content = false ->
     FixAdapterMocks.subn content = (content, 0)
     /\ forall total, FixAdapterMocks.fix_file p (w, total) = (w, total))
  /\ (contains PatchContainer.live content = false ->
        PatchContainer.disable content = content
        /\ PatchContainer.patch_file p w = w)
  /\ (contains RevertContainerPatch.annotated content = false ->
        RevertContainerPatch.restore content = content
        /\ RevertContainerPatch.revert_file p w = w)
  /\ (forall f, PatchTests.filepath_of f = p ->
        PatchTests.insert content = content ->
        PatchTests.patch_file f w = w).
Proof.
  intros Hr. repeat split.
  - apply remover_not_found. assumption.
  - intros total. apply (fix_file_quiet w p content); assumption.
  - apply replace_absent; [discriminate | assumption].
  - unfold PatchContainer.patch_file. rewrite Hr.
    match goal with E : contains _ _ = false |- _ => rewrite E end. reflexivity.
  - apply replace_absent; [discriminate | assumption].
  - unfold RevertContainerPatch.revert_file. rewrite Hr.
    match goal with E : contains _ _ = false |- _ => rewrite E end. reflexivity.
  - intros f Hf Hi. unfold PatchTests.patch_file. rewrite Hf.
    rewrite (read_ok_exists _ _ _ Hr), Hr. simpl.
    destruct (decide (content = PatchTests.insert content)); congruence.
Qed.

(** A run of the Remover over files that hold no match prints the total
    of zero and nothing else. *)
Lemma remover_reports_zero (files_to_fix : list text) (w : world) :
  Forall (fun p => exists content,
            read_file (files_of w) p = ReadOk content
            /\ found FixAdapterMocks.find content = false) files_to_fix ->
  FixAdapterMocks.main files_to_fix w
  = print (10%N :: txt "Total adapter mock fixes: 0") w.
Proof.
  intros Hall. unfold FixAdapterMocks.main.
  assert (foldl (fun st p => FixAdapterMocks.fix_file p st) (w, 0) files_to_fix = (w, 0)) as ->.
  { induction Hall as [|p l (content & Hr & Hf) _ IH]; [reflexivity|]. cbn [foldl].
    rewrite (fix_file_quiet w p content 0 Hr Hf). exact IH. }
  reflexivity.
Qed.

Lemma patch_all_app l1 l2 w :
  PatchTests.patch_all (l1 ++ l2) w = PatchTests.patch_all l2 (PatchTests.patch_all l1 w).
Proof. apply foldl_app. Qed.

(** [f.replace('/', os.sep)], character by character. *)
Lemma filepath_of_flat f :
  PatchTests.filepath_of f = flat_map (fun c => if N.eqb c 47 then os_sep else [c]) f.
Proof. apply (replace_char 47). Qed.

(** The set of targets, in the spec's words: strip every line of the
    manifest, drop the empty ones, keep each path once. *)
Definition spec_paths (content : text) : gset text :=
  list_to_set (filter (fun p => p <> []) (map strip (splitlines content))).

Lemma manifest_paths_spec content :
  PatchTests.manifest_paths content = spec_paths content.
Proof.
  apply set_eq. intros p. unfold PatchTests.manifest_paths, spec_paths.
  rewrite !elem_of_list_to_set, list_elem_of_filter, !list_elem_of_In, !in_map_iff.
  split.
  - intros (l & <- & Hl%list_elem_of_In%list_elem_of_filter).
    destruct Hl as [Hne Hl%list_elem_of_In]. eauto.
  - intros (Hne & l & <- & Hl). exists l. split; [reflexivity|].
    apply list_elem_of_In, list_elem_of_filter. split; [exact Hne|].
    apply list_elem_of_In, Hl.
Qed.

(** C8.  When the manifest can be read, a run visits each path of the
    stripped, non-empty, distinct lines once and no other path; the path
    the body of the loop works on is the listed path with every slash
    replaced by the platform's separator and every other character kept;
    the body touches the file system only through that path, whose
    existence it checks first; and a path that does not exist costs one
    [Skipping] line naming the converted path, after which the rest of
    the paths are visited. *)
Theorem manifest_targets (w : world) (content : text) (o : PatchTests.outcome) :
  read_file (files_of w) PatchTests.manifest = ReadOk content ->
  PatchTests.runs w o ->
  exists files,
    o = PatchTests.Finished
          (print (txt "Python test patcher finished.") (PatchTests.patch_all files w))
    /\ NoDup files
    /\ (forall p, p ∈ files <-> p ∈ spec_paths content)
    /\ (forall f,
          PatchTests.filepath_of f
          = flat_map (fun c => if N.eqb c 47 then os_sep else [c]) f)
    /\ (forall f st,
          path_exists (files_of st) (PatchTests.filepath_of f) = false ->
          PatchTests.patch_file f st
          = print (txt "Skipping " ++ PatchTests.filepath_of f ++ txt ", file not found.") st)
    /\ (forall f f' st,
          PatchTests.filepath_of f = PatchTests.filepath_of f' ->
          PatchTests.patch_file f st = PatchTests.patch_file f' st)
    /\ (forall l1 f l2,
          files = l1 ++ f :: l2 ->
          path_exists (files_of (PatchTests.patch_all l1 w)) (PatchTests.filepath_of f) = false ->
          PatchTests.patch_all files w
          = PatchTests.patch_all l2
              (print (txt "Skipping " ++ PatchTests.filepath_of f ++ txt ", file not found.")
                     (PatchTests.patch_all l1 w))).
Proof.
  intros Hr Hruns. inversion Hruns as [cause Hc | content' files Hc Hperm]; subst.
  - congruence.
  - assert (content' = content) as -> by congruence.
    exists files. split; [reflexivity|]. split; [|split; [|split; [|split; [|split]]]].
    + rewrite Hperm. apply NoDup_elements.
    + intros p. rewrite Hperm, elem_of_elements, manifest_paths_spec. reflexivity.
    + apply filepath_of_flat.
    + intros f st Hex. unfold PatchTests.patch_file. rewrite Hex. reflexivity.
    + intros f f' st Hf. unfold PatchTests.patch_file. rewrite Hf. reflexivity.
    + intros l1 f l2 -> Hex. rewrite patch_all_app. simpl.
      f_equal. unfold PatchTests.patch_file. rewrite Hex. reflexivity.
Qed.

End Runs.


(** ** The matcher *)
Section Engine.
Context {A : Type}.
Implicit Types (k : text -> option A) (s : text).

(** The literal characters of [lit], as a function of the characters. *)
Definition lits (w : text) : regex := fold_right (fun c r => Cat (Chr c) r) Eps w.

Lemma lit_lits w : lit w = lits (txt w).
Proof. reflexivity. Qed.

Lemma run_chr k a s x :
  run (Chr a) k s = Some x -> exists s', s = a :: s' /\ k s' = Some x.
Proof.
  destruct s as [|b s]; simpl; [discriminate|].
  destruct (N.eqb_spec b a) as [->|]; [eauto|discriminate].
Qed.

Lemma run_cls k p s x :
  run (Cls p) k s = Some x -> exists b s', s = b :: s' /\ p b = true /\ k s' = Some x.
Proof.
  destruct s as [|b s]; simpl; [discriminate|].
  destruct (p b) eqn:E; [eauto|discriminate].
Qed.

Lemma run_lits k w s x :
  run (lits w) k s = Some x -> exists s', s = w ++ s' /\ k s' = Some x.
Proof.
  revert s. induction w as [|a w IH]; intros s Hs; simpl in Hs; [eauto|].
  apply run_chr in Hs as (s1 & -> & Hs). apply IH in Hs as (s' & -> & Hs). eauto.
Qed.

Lemma star_inv k p s x :
  star p k s = Some x ->
  exists u s', s = u ++ s' /\ forallb p u = true /\ k s' = Some x.
Proof.
  induction s as [|b s IH]; simpl; intros Hs.
  - exists [], []. auto.
  - destruct (p b) eqn:E; [|exists [], (b :: s); auto].
    destruct (star p k s) eqn:Es.
    + destruct (IH Hs) as (u & s' & -> & Hu & Hk).
      exists (b :: u), s'. simpl. rewrite E, Hu. auto.
    + exists [], (b :: s). auto.
Qed.

(** Whatever the pattern, the continuation is run on a suffix of the
    subject. *)
Lemma run_suffix r : forall k s x,
  run r k s = Some x -> exists u s', s = u ++ s' /\ k s' = Some x.
Proof.
  induction r as [|a|p|r1 IH1 r2 IH2|r1 IH1 r2 IH2|p]; intros k s x Hs.
  - exists [], s. auto.
  - apply run_chr in Hs as (s' & -> & Hs). exists [a], s'. auto.
  - apply run_cls in Hs as (b & s' & -> & _ & Hs). exists [b], s'. auto.
  - simpl in Hs. apply IH1 in Hs as (u1 & s1 & -> & Hs).
    apply IH2 in Hs as (u2 & s2 & -> & Hs). exists (u1 ++ u2), s2.
    rewrite <- app_assoc. auto.
  - simpl in Hs. destruct (run r1 k s) eqn:E.
    + injection Hs as ->. eauto.
    + eauto.
  - apply star_inv in Hs as (u & s' & -> & _ & Hs). eauto.
Qed.

(** The matcher looks at its continuation only through what it
    returns. *)
Lemma star_ext p k1 k2 s :
  (forall s', k1 s' = k2 s') -> star p k1 s = star p k2 s.
Proof.
  intros Hk. induction s as [|b s IH]; cbn [star]; [apply Hk|].
  rewrite IH, (Hk (b :: s)). reflexivity.
Qed.

Lemma run_ext r : forall k1 k2 s,
  (forall s', k1 s' = k2 s') -> run r k1 s = run r k2 s.
Proof.
  induction r as [|a|p|r1 IH1 r2 IH2|r1 IH1 r2 IH2|p]; intros k1 k2 s Hk; cbn [run].
  - apply Hk.
  - destruct s as [|b s]; [reflexivity|]. rewrite Hk. reflexivity.
  - destruct s as [|b s]; [reflexivity|]. rewrite Hk. reflexivity.
  - apply IH1. intros s'. apply IH2, Hk.
  - rewrite (IH1 k1 k2 s Hk), (IH2 k1 k2 s Hk). reflexivity.
  - apply star_ext, Hk.
Qed.
End Engine.

Lemma star_fmap {A B : Type} (f : A -> B) p (k : text -> option A) s :
  star p (fun s' => f <$> k s') s = f <$> star p k s.
Proof.
  induction s as [|b s IH]; cbn [star]; [reflexivity|].
  rewrite IH. destruct (p b); [|reflexivity].
  destruct (star p k s); reflexivity.
Qed.

(** Mapping the result of the continuation maps the result of the
    match. *)
Lemma run_fmap {A B : Type} (f : A -> B) r : forall (k : text -> option A) s,
  run r (fun s' => f <$> k s') s = f <$> run r k s.
Proof.
  induction r as [|a|p|r1 IH1 r2 IH2|r1 IH1 r2 IH2|p]; intros k s; cbn [run].
  - reflexivity.
  - destruct s as [|b s]; [reflexivity|]. destruct (N.eqb b a); reflexivity.
  - destruct s as [|b s]; [reflexivity|]. destruct (p b); reflexivity.
  - rewrite <- IH1. apply run_ext. intros s'. apply IH2.
  - rewrite IH1, IH2. destruct (run r1 k s); reflexivity.
  - apply star_fmap.
Qed.

(** ** Appending text after a subject

    [stable y R k k'] says that [k] on a subject followed by [y] does what
    [k'] does on the subject alone, the results being related by [R].  A
    pattern keeps two continuations in step as long as, where the subject
    ends, it cannot go on into [y]. *)
Section Stable.
Context {A : Type}.
Variable y : text.
Variable R : A -> A -> Prop.

Definition agree (o o' : option A) : Prop :=
  match o, o' with
  | Some x, Some x' => R x x'
  | None, None => True
  | _, _ => False
  end.

Definition stable (k k' : text -> option A) : Prop :=
  forall v, agree (k (v ++ y)) (k' v).

Lemma stable_eps k k' : stable k k' -> stable (run Eps k) (run Eps k').
Proof. exact (fun Hk => Hk). Qed.

Lemma stable_cat r1 r2 k k' :
  stable (run r1 (run r2 k)) (run r1 (run r2 k')) ->
  stable (run (Cat r1 r2) k) (run (Cat r1 r2) k').
Proof. exact (fun Hk => Hk). Qed.

Lemma stable_chr a k k' :
  stable k k' -> run (Chr a) k y = None ->
  stable (run (Chr a) k) (run (Chr a) k').
Proof.
  intros Hk Hy [|b v]; cbn [app].
  - rewrite Hy. exact I.
  - simpl. destruct (N.eqb b a); [apply Hk | exact I].
Qed.

Lemma stable_cls p k k' :
  stable k k' -> run (Cls p) k y = None ->
  stable (run (Cls p) k) (run (Cls p) k').
Proof.
  intros Hk Hy [|b v]; cbn [app].
  - rewrite Hy. exact I.
  - simpl. destruct (p b); [apply Hk | exact I].
Qed.

Lemma stable_star p k k' :
  stable k k' -> agree (star p k y) (k' []) ->
  stable (run (Star p) k) (run (Star p) k').
Proof.
  intros Hk Hy v. cbn [run]. induction v as [|b v IH]; cbn [app].
  - exact Hy.
  - simpl. destruct (p b); [|apply (Hk (b :: v))].
    destruct (star p k (v ++ y)), (star p k' v); simpl in IH; try contradiction.
    + exact IH.
    + apply (Hk (b :: v)).
Qed.
End Stable.

(** ** Walks over a text and what follows it *)
Section ScanApp.
Variable find : text -> option (text * nat).
Variable y : text.
Hypothesis find_nil : find [] = None.
Hypothesis find_app : forall v, v <> [] -> find (v ++ y) = find v.
Hypothesis find_within : forall v rep n, find v = Some (rep, n) -> n <= length v.

Lemma scan_empty_match rep c s :
  find (c :: s) = Some (rep, 0) ->
  scan find 0 (c :: s) = emit rep (copy c (scan find 0 s)).
Proof. intros Hf. cbn [scan]. rewrite Hf. reflexivity. Qed.

(** A walk over [pre ++ y] in which no match reaches from [pre] into [y]
    is the walk over [pre] followed by the walk over [y]. *)
Lemma scan_app (pre : list N) :
  scan find 0 (pre ++ y)
  = (fst (scan find 0 pre) ++ fst (scan find 0 y),
     snd (scan find 0 pre) + snd (scan find 0 y)).
Proof.
  remember (length pre) as n eqn:Hn. revert pre Hn.
  induction n as [n IH] using lt_wf_ind. intros pre ->.
  destruct pre as [|c p].
  - assert (scan find 0 [] = ([], 0)) as ->
      by (cbn [scan]; rewrite find_nil; reflexivity).
    cbn [app]. destruct (scan find 0 y); reflexivity.
  - pose proof (find_app (c :: p) ltac:(discriminate)) as Hf.
    destruct (find (c :: p)) as [[rep [|k]]|] eqn:E.
    + rewrite (scan_empty_match rep c p E).
      change ((c :: p) ++ y) with (c :: (p ++ y)) in *.
      rewrite (scan_empty_match rep c (p ++ y) Hf).
      rewrite (IH (length p) ltac:(simpl; lia) p eq_refl).
      unfold emit, copy. cbn [fst snd]. rewrite <- app_assoc. reflexivity.
    + apply find_within in E as Hk. cbn [length] in Hk.
      rewrite (scan_hit find rep (S k) (c :: p) E) by (cbn [length]; lia).
      rewrite (scan_hit find rep (S k) ((c :: p) ++ y) Hf)
        by (rewrite length_app; cbn [length]; lia).
      rewrite drop_app_le by (cbn [length]; lia).
      rewrite (IH (length (drop (S k) (c :: p)))
                 ltac:(rewrite length_drop; cbn [length]; lia) _ eq_refl).
      unfold emit. cbn [fst snd]. rewrite <- app_assoc. reflexivity.
    + change ((c :: p) ++ y) with (c :: (p ++ y)) in *.
      rewrite (scan_miss find c p E), (scan_miss find c (p ++ y) Hf).
      rewrite (IH (length p) ltac:(simpl; lia) p eq_refl).
      unfold copy. reflexivity.
Qed.
End ScanApp.

(** ** Runs of characters of one class *)
Section Blocks.
Lemma starts_with_skip (w a s : text) :
  starts_with (w ++ a) (w ++ s) = starts_with a s.
Proof.
  induction w as [|c w IH]; [reflexivity|].
  cbn [app]. rewrite starts_with_cons, N.eqb_refl. exact IH.
Qed.

(** A word at the head of [x ++ c :: z], where [x] is made of characters
    of one class, either is made of that class too or holds [c]. *)
Lemma starts_with_block (p : N -> bool) (w x : text) (c : N) (z : text) :
  forallb p x = true ->
  starts_with w (x ++ c :: z) = true ->
  forallb p w = true \/ In c w.
Proof.
  revert x. induction w as [|a w IH]; intros x Hx Hw; [left; reflexivity|].
  destruct x as [|b x]; cbn [app] in Hw; rewrite starts_with_cons in Hw;
    apply andb_true_iff in Hw as [Hab Hw]; apply N.eqb_eq in Hab as ->.
  - right. left. reflexivity.
  - simpl in Hx. apply andb_true_iff in Hx as [Hb Hx].
    destruct (IH x Hx Hw) as [Hall|Hin].
    + left. simpl. rewrite Hb, Hall. reflexivity.
    + right. right. exact Hin.
Qed.

Lemma forallb_drop (p : N -> bool) (x : text) i :
  forallb p x = true -> forallb p (drop i x) = true.
Proof.
  revert i. induction x as [|b x IH]; intros [|i] Hx; try exact Hx.
  simpl in Hx. apply andb_true_iff in Hx as [_ Hx]. apply IH, Hx.
Qed.

(** Two words closed by the same character, which neither holds, are
    equal as soon as one is at the head of the other. *)
Lemma starts_with_closed (a x : text) (c : N) (z : text) :
  ~ In c a -> ~ In c x ->
  starts_with (a ++ [c]) (x ++ c :: z) = true -> a = x.
Proof.
  revert x. induction a as [|a0 a IH]; intros x Ha Hx Hs.
  - destruct x as [|b x]; [reflexivity|]. cbn [app] in Hs.
    rewrite starts_with_cons in Hs. apply andb_true_iff in Hs as [->%N.eqb_eq _].
    exfalso. apply Hx. left. reflexivity.
  - destruct x as [|b x]; cbn [app] in Hs; rewrite starts_with_cons in Hs;
      apply andb_true_iff in Hs as [->%N.eqb_eq Hs].
    + exfalso. apply Ha. left. reflexivity.
    + f_equal. apply IH; [| |exact Hs].
      * intros Hin. apply Ha. right. exact Hin.
      * intros Hin. apply Hx. right. exact Hin.
Qed.
End Blocks.

(** ** The Remover and calls on other mocks *)
Section Remover.
Context {H : Host}.
Import FixAdapterMocks.

Definition paired (y : text) (x x' : text * text) : Prop :=
  fst x = fst x' ++ y /\ snd x = snd x' ++ y.

Ltac unfold_regex r :=
  let r' := eval cbv -[is_word is_space] in r in change r with r'.

Ltac stable_walk :=
  repeat first
    [ simple apply stable_cat
    | simple apply stable_eps
    | simple apply stable_chr; [ | vm_compute; reflexivity ]
    | simple apply stable_cls; [ | vm_compute; reflexivity ]
    | simple apply stable_star; [ | vm_compute; exact I ] ].

(** What [match_at] reports as the end of the match is the end of the
    match of the whole pattern. *)
Lemma match_at_whole s : snd <$> match_at s = run pattern Some s.
Proof.
  unfold match_at, pattern. cbn [run]. rewrite <- run_fmap.
  apply run_ext. intros s1. rewrite <- run_fmap. reflexivity.
Qed.

Definition opening : text := txt "expect(".

Lemma tail_stable y' a :
  stable (opening ++ y') (paired (opening ++ y'))
    (run tail (fun s2 => Some (a ++ opening ++ y', s2)))
    (run tail (fun s2 => Some (a, s2))).
Proof.
  unfold_regex tail. repeat first
    [ simple apply stable_cat
    | simple apply stable_eps
    | simple apply stable_chr; [ | vm_compute; reflexivity ] ].
  simple apply stable_star.
  - intros v. split; reflexivity.
  - vm_compute. split; reflexivity.
Qed.

Lemma run_cat_chr {A} a r r2 (k : text -> option A) b s :
  run (Cat (Cat (Chr a) r) r2) k (b :: s)
  = if N.eqb b a then run r (run r2 k) s else None.
Proof. reflexivity. Qed.

Lemma match_at_stable y' v :
  v <> [] ->
  agree (paired (opening ++ y')) (match_at (v ++ opening ++ y')) (match_at v).
Proof.
  destruct v as [|b v]; [congruence|]. intros _.
  unfold match_at. unfold_regex group1. cbn [app]. rewrite !run_cat_chr.
  destruct (N.eqb b 101); [|exact I].
  revert v.
  match goal with
  | |- forall v, agree ?R (?k (v ++ ?y)) (?k' v) => change (stable y R k k')
  end.
  stable_walk. intros v. apply tail_stable.
Qed.

Lemma find_nil : find [] = None.
Proof. vm_compute. reflexivity. Qed.

Lemma find_within v rep n : find v = Some (rep, n) -> n <= length v.
Proof.
  unfold find. destruct (match_at v) as [[s1 s2]|]; [|discriminate].
  intros [= _ <-]. lia.
Qed.

(** Followed by the start of another call, a text is matched where, and
    as far as, it is matched on its own. *)
Lemma find_stable y' v : v <> [] -> find (v ++ opening ++ y') = find v.
Proof.
  intros Hv. pose proof (match_at_stable y' v Hv) as Hm. unfold find.
  destruct (match_at (v ++ opening ++ y')) as [[s1 s2]|],
           (match_at v) as [[s1' s2']|]; simpl in Hm; try contradiction; [|reflexivity].
  destruct Hm as [Hs1 Hs2]. simpl in Hs1, Hs2. subst s1 s2.
  assert (Hsub : forall a b c, a + c - (b + c) = a - b) by (intros; lia).
  rewrite !(length_app _ (opening ++ y')), !Hsub.
  rewrite take_app_le by lia. reflexivity.
Qed.

Definition target : text := txt "userMgmtAdapterMock".

(** A match begins with the literal head of the pattern. *)
Lemma find_opens s r :
  find s = Some r -> starts_with (opening ++ target ++ [46%N]) s = true.
Proof.
  unfold find. destruct (match_at s) as [[s1 s2]|] eqn:E; [|discriminate]. intros _.
  unfold match_at in E.
  change group1 with (Cat (lits (opening ++ target ++ [46%N]))
                          (seq [Plus is_word; lit ").toHaveBeenCalledWith("])) in E.
  cbn [run] in E. apply run_lits in E as (s' & -> & _). apply starts_with_app.
Qed.

Lemma find_closed s : starts_with opening s = false -> find s = None.
Proof.
  intros Hs. destruct (find s) eqn:E; [|reflexivity].
  apply find_opens, starts_with_app_l in E. congruence.
Qed.

(** No call opens inside a run of word characters closed by [c], when
    [c] is a dot or a closing parenthesis. *)
Lemma find_in_word x c z i :
  forallb is_word x = true -> c = 46%N \/ c = 41%N ->
  find (drop i x ++ c :: z) = None.
Proof.
  intros Hx Hc. apply find_closed.
  destruct (starts_with opening (drop i x ++ c :: z)) eqn:E; [|reflexivity].
  apply (starts_with_block is_word) in E; [|apply forallb_drop, Hx].
  destruct E as [E|E]; [vm_compute in E; discriminate|].
  exfalso. destruct Hc as [-> | ->]; vm_compute in E; intuition discriminate.
Qed.

Lemma find_in_space x z i :
  forallb is_space x = true -> i < length x -> find (drop i x ++ z) = None.
Proof.
  intros Hx Hi. apply find_closed.
  pose proof (forallb_drop is_space x i Hx) as Hd.
  destruct (drop i x) as [|b d] eqn:E.
  - apply (f_equal length) in E. rewrite length_drop in E. simpl in E. lia.
  - simpl in Hd. apply andb_true_iff in Hd as [Hb _].
    cbn [app]. unfold opening. change (txt "expect(") with (101%N :: txt "xpect(").
    rewrite starts_with_cons. destruct (N.eqb_spec 101 b) as [<-|]; [|reflexivity].
    vm_compute in Hb. discriminate.
Qed.

Definition closing : text := txt ").toHaveBeenCalledWith(".

(** A call assertion on the mock [mk], up to the parenthesis that opens
    its arguments. *)
Definition other_call (mk member : text) : text :=
  opening ++ mk ++ 46%N :: member ++ closing.

(** The placeholder the Remover looks for, with its separator and the
    blanks after it. *)
Definition held (ws : text) : text := txt "expect.any(String)," ++ ws.

Lemma other_call_untouched mk member suf :
  forallb is_word mk = true -> mk <> target ->
  forallb is_word member = true ->
  scan find 0 (other_call mk member ++ suf)
  = (other_call mk member ++ fst (scan find 0 suf), snd (scan find 0 suf)).
Proof.
  intros Hmk Hne Hmem. unfold other_call.
  repeat rewrite <- ?app_assoc, <- ?app_comm_cons.
  (* the opening *)
  rewrite scan_none.
  2:{ intros i Hi. destruct i as [|i].
      - destruct (find _) eqn:E; [|reflexivity]. exfalso.
        apply find_opens in E. cbn [drop] in E.
        rewrite (starts_with_skip opening) in E.
        apply starts_with_closed in E; [congruence| |].
        + vm_compute. intuition discriminate.
        + intros Hin. apply (proj1 (forallb_forall _ _) Hmk) in Hin.
          vm_compute in Hin. discriminate.
      - do 6 (destruct i as [|i]; [vm_compute; reflexivity|]).
        vm_compute in Hi. lia. }
  (* the mock *)
  rewrite scan_none by (intros i _; apply find_in_word; auto).
  (* the dot *)
  rewrite (scan_miss find 46) by (vm_compute; reflexivity).
  (* the member *)
  rewrite (scan_none find member).
  2:{ intros i _.
      change (closing ++ suf) with (41%N :: txt ".toHaveBeenCalledWith(" ++ suf).
      apply find_in_word; auto. }
  (* the closing *)
  rewrite (scan_none find closing).
  2:{ intros i Hi.
      do 23 (destruct i as [|i]; [vm_compute; reflexivity|]).
      vm_compute in Hi. lia. }
  unfold copy. cbn [fst snd]. repeat rewrite <- ?app_assoc, <- ?app_comm_cons.
  reflexivity.
Qed.

(** On its own, that is not after a call on [userMgmtAdapterMock], the
    placeholder stays. *)
Lemma held_untouched ws suf :
  forallb is_space ws = true ->
  scan find 0 (held ws ++ suf) = (held ws ++ fst (scan find 0 suf), snd (scan find 0 suf)).
Proof.
  intros Hws. unfold held. rewrite <- app_assoc.
  rewrite (scan_none find (txt "expect.any(String),")).
  2:{ intros i Hi.
      do 19 (destruct i as [|i]; [vm_compute; reflexivity|]).
      vm_compute in Hi. lia. }
  rewrite scan_none by (intros i Hi; apply find_in_space; assumption).
  cbn [fst snd]. rewrite <- app_assoc. reflexivity.
Qed.

Lemma other_call_frame pre mk member suf :
  forallb is_word mk = true -> mk <> target ->
  forallb is_word member = true ->
  subn (pre ++ other_call mk member ++ suf)
  = (fst (subn pre) ++ other_call mk member ++ fst (subn suf),
     snd (subn pre) + snd (subn suf)).
Proof.
  intros Hmk Hne Hmem. unfold subn.
  pose (y' := mk ++ 46%N :: member ++ closing ++ suf).
  assert (Hy : other_call mk member ++ suf = opening ++ y').
  { unfold other_call, y'. repeat rewrite <- ?app_assoc, <- ?app_comm_cons. reflexivity. }
  rewrite Hy.
  rewrite (scan_app find (opening ++ y') find_nil (find_stable y') find_within).
  rewrite <- Hy, other_call_untouched by assumption.
  cbn [fst snd]. reflexivity.
Qed.

(** C6.  A call assertion on a mock other than [userMgmtAdapterMock]
    comes out of the Remover character for character, wherever it
    stands and whatever its arguments: the text before it and the text
    after it are rewritten as they would be on their own, and the fixes
    counted are theirs.  In particular, when its first argument is the
    placeholder, the placeholder stays. *)
Theorem remover_leaves_other_mocks (pre mk member ws suf : text) :
  forallb is_word mk = true -> mk <> target ->
  forallb is_word member = true -> forallb is_space ws = true ->
  subn (pre ++ other_call mk member ++ suf)
  = (fst (subn pre) ++ other_call mk member ++ fst (subn suf),
     snd (subn pre) + snd (subn suf))
  /\ subn (pre ++ other_call mk member ++ held ws ++ suf)
     = (fst (subn pre) ++ other_call mk member ++ held ws ++ fst (subn suf),
        snd (subn pre) + snd (subn suf)).
Proof.
  intros Hmk Hne Hmem Hws. split; [apply other_call_frame; assumption|].
  rewrite other_call_frame by assumption.
  unfold subn at 2 4. rewrite held_untouched by exact Hws. reflexivity.
Qed.
End Remover.

(** ** The Inserter: what it does site by site *)
Section Sites.
Context {H : Host}.
Import PatchTests.

(** An opening parenthesis. *)
Definition paren : N := 40.

(** [pattern.sub] with a replacer that may look at what follows the
    match: the whole match, then [ins rest]. *)
Definition find_with (ins : text -> text) (s : text) : option (text * nat) :=
  match match_at s with
  | Some rest =>
      let n := length s - length rest in
      Some (take n s ++ ins rest, n)
  | None => None
  end.

Definition weave (ins : text -> text) (content : text) : text :=
  fst (scan (find_with ins) 0 content).

Lemma sub_weave content : sub content = weave (fun _ => placeholder) content.
Proof. reflexivity. Qed.

(** The first seven characters of any match: [expect], then a blank or
    the parenthesis. *)
Definition opens (s : text) : bool :=
  starts_with (txt "expect") s &&
  match drop 6 s with
  | c :: _ => is_space c || N.eqb c paren
  | [] => false
  end.

Fixpoint never_opens (w : text) : bool :=
  match w with
  | [] => true
  | _ :: w' => negb (opens w) && never_opens w'
  end.

(** The pattern, cut at its two parentheses. *)
Definition before_paren : list regex := [lit "expect"; Star is_space].

Definition callee : list regex :=
  [ Star is_space; any_of mocks; Chr 46; Plus is_word; Star is_space; Chr 41;
    lit ".toHaveBeenCalledWith"; Star is_space ].

Lemma match_at_split s :
  match_at s
  = run (seq before_paren)
      (run (Chr paren) (run (seq callee) (run (Chr paren) Some))) s.
Proof. reflexivity. Qed.

(** A match ends with a parenthesis, holds another one before it, and
    begins as [opens] says. *)
Lemma match_shape s rest :
  match_at s = Some rest ->
  exists m0, s = m0 ++ paren :: rest /\ In paren m0 /\ forall z, opens (m0 ++ z) = true.
Proof.
  rewrite match_at_split. intros Hm.
  change (run (lits (txt "expect"))
            (run (Star is_space)
               (run (Chr paren) (run (seq callee) (run (Chr paren) Some)))) s
          = Some rest) in Hm.
  apply run_lits in Hm as (s1 & -> & Hm).
  apply star_inv in Hm as (u & s2 & -> & Hu & Hm).
  apply run_chr in Hm as (s3 & -> & Hm).
  apply run_suffix in Hm as (u' & s4 & -> & Hm).
  apply run_chr in Hm as (s5 & -> & [= ->]).
  exists (txt "expect" ++ u ++ paren :: u'). split; [|split].
  - repeat rewrite <- ?app_assoc, <- ?app_comm_cons. reflexivity.
  - apply in_or_app. right. apply in_or_app. right. left. reflexivity.
  - intros z. unfold opens. rewrite <- !app_assoc, starts_with_app.
    change (drop 6 (txt "expect" ++ u ++ (paren :: u') ++ z))
      with (u ++ (paren :: u') ++ z).
    destruct u as [|b u]; cbn [app andb].
    + rewrite N.eqb_refl. apply orb_true_r.
    + simpl in Hu. apply andb_true_iff in Hu as [-> _]. reflexivity.
Qed.

Lemma match_at_nil : match_at [] = None.
Proof. vm_compute. reflexivity. Qed.

Lemma find_with_nil ins : find_with ins [] = None.
Proof. unfold find_with. rewrite match_at_nil. reflexivity. Qed.

Lemma weave_nil ins : weave ins [] = [].
Proof. unfold weave. cbn [scan]. rewrite find_with_nil. reflexivity. Qed.

Lemma weave_miss ins c s :
  match_at (c :: s) = None -> weave ins (c :: s) = c :: weave ins s.
Proof.
  intros Hm. unfold weave. rewrite scan_miss; [reflexivity|].
  unfold find_with. rewrite Hm. reflexivity.
Qed.

Lemma weave_site ins m0 rest :
  match_at (m0 ++ paren :: rest) = Some rest ->
  weave ins (m0 ++ paren :: rest) = m0 ++ paren :: ins rest ++ weave ins rest.
Proof.
  intros Hm. unfold weave.
  assert (Hlen : length (m0 ++ paren :: rest) - length rest = length (m0 ++ [paren])).
  { rewrite !length_app. simpl. lia. }
  rewrite (scan_hit _ ((m0 ++ [paren]) ++ ins rest) (length (m0 ++ [paren]))).
  - change (m0 ++ paren :: rest) with (m0 ++ [paren] ++ rest).
    rewrite app_assoc, drop_app_length. unfold emit. cbn [fst].
    rewrite <- !app_assoc. reflexivity.
  - unfold find_with. rewrite Hm. cbv zeta. rewrite Hlen.
    change (m0 ++ paren :: rest) with (m0 ++ [paren] ++ rest).
    rewrite app_assoc, take_app_length. reflexivity.
  - rewrite !length_app. simpl. lia.
Qed.

Lemma weave_none ins u s :
  (forall i, i < length u -> match_at (drop i u ++ s) = None) ->
  weave ins (u ++ s) = u ++ weave ins s.
Proof.
  intros Hu. unfold weave. rewrite scan_none; [reflexivity|].
  intros i Hi. unfold find_with. rewrite Hu by exact Hi. reflexivity.
Qed.

(** Induction along the walk of [weave]: a text is empty, or begins
    with a match, or begins with a character at which nothing
    matches. *)
Lemma sites_ind (P : list N -> Prop) :
  P [] ->
  (forall m0 rest,
     match_at (m0 ++ paren :: rest) = Some rest -> In paren m0 ->
     (forall z, opens (m0 ++ z) = true) ->
     (forall s, length s <= length rest -> P s) -> P (m0 ++ paren :: rest)) ->
  (forall c s, match_at (c :: s) = None -> P s -> P (c :: s)) ->
  forall t : list N, P t.
Proof.
  intros Hnil Hsite Hmiss t.
  remember (length t) as n eqn:Hn. revert t Hn.
  induction n as [n IH] using lt_wf_ind. intros t ->.
  destruct (match_at t) as [rest|] eqn:E.
  - destruct (match_shape t rest E) as (m0 & -> & Hin & Hop).
    apply Hsite; auto. intros s Hs. apply (IH (length s)); [|reflexivity].
    rewrite length_app. simpl. lia.
  - destruct t as [|c t]; [exact Hnil|].
    apply Hmiss; [exact E|]. apply (IH (length t)); [simpl; lia|reflexivity].
Qed.

Lemma starts_with_app_cases (w m x : text) :
  starts_with w (m ++ x) = true ->
  starts_with w m = true \/ exists w2, w = m ++ w2.
Proof.
  revert m. induction w as [|a w IH]; intros m Hw; [left; reflexivity|].
  destruct m as [|b m]; [right; exists (a :: w); reflexivity|].
  cbn [app] in Hw. rewrite starts_with_cons in Hw |- *.
  apply andb_true_iff in Hw as [Hab Hw]. rewrite Hab.
  apply N.eqb_eq in Hab as ->.
  destruct (IH m Hw) as [Hm | [w2 ->]]; [left; exact Hm | right; exists w2; reflexivity].
Qed.

(** A word that no suffix of which can open a match, found at the head
    of the output, was at the head of the input: the output differs from
    the input only after whole matches. *)
Lemma weave_head ins w : forall t,
  never_opens w = true ->
  starts_with w (weave ins t) = true -> starts_with w t = true.
Proof.
  induction w as [|a w IH]; intros t Hw Hs; [reflexivity|].
  cbn [never_opens] in Hw. apply andb_true_iff in Hw as [Hop Hw].
  destruct (match_at t) as [rest|] eqn:E.
  - destruct (match_shape t rest E) as (m0 & -> & _ & Hm0).
    rewrite weave_site in Hs by exact E.
    change (m0 ++ paren :: ins rest ++ weave ins rest)
      with (m0 ++ [paren] ++ ins rest ++ weave ins rest) in Hs.
    rewrite app_assoc in Hs.
    apply starts_with_app_cases in Hs as [Hs | [w2 Hw2]].
    + change (m0 ++ paren :: rest) with (m0 ++ [paren] ++ rest).
      rewrite app_assoc. apply starts_with_weaken, Hs.
    + rewrite Hw2, <- app_assoc, Hm0 in Hop. discriminate.
  - destruct t as [|c t]; [rewrite weave_nil in Hs; discriminate|].
    rewrite weave_miss in Hs by exact E.
    rewrite starts_with_cons in Hs |- *.
    apply andb_true_iff in Hs as [-> Hs]. apply IH; assumption.
Qed.

(** A parenthesis followed by [e]: no occurrence of [w] runs across
    it. *)
Fixpoint straddle_free (w : text) : bool :=
  match w with
  | [] => true
  | a :: w' =>
      (if N.eqb a paren
       then match w' with b :: _ => negb (N.eqb b 101) | [] => false end
       else true)
      && straddle_free w'
  end.

Lemma no_straddle w : forall v z,
  straddle_free w = true ->
  starts_with w (v ++ paren :: 101%N :: z) = true -> starts_with w v = true.
Proof.
  induction w as [|a w IH]; intros v z Hw Hs; [reflexivity|].
  cbn [straddle_free] in Hw. apply andb_true_iff in Hw as [Ha Hw].
  destruct v as [|b v]; cbn [app] in Hs; rewrite starts_with_cons in Hs;
    apply andb_true_iff in Hs as [Hab Hs].
  - exfalso. rewrite Hab in Ha. destruct w as [|b w]; [discriminate|].
    rewrite starts_with_cons in Hs. apply andb_true_iff in Hs as [Hb _].
    rewrite Hb in Ha. discriminate.
  - rewrite starts_with_cons, Hab. apply (IH v z); assumption.
Qed.

Lemma starts_with_drop_contains (w a b : text) i :
  starts_with w (drop i a) = true -> contains w (a ++ b) = true.
Proof.
  intros [z Hz]%starts_with_true. apply contains_true.
  exists (take i a), (z ++ b).
  rewrite <- (take_drop i a) at 1. rewrite Hz, <- !app_assoc. reflexivity.
Qed.

(** In a text without [w], followed by [e...], no occurrence of [w]
    begins in a match. *)
Lemma match_clear w m0 rest z i :
  straddle_free w = true ->
  contains w (m0 ++ paren :: rest) = false ->
  i < length (m0 ++ [paren]) ->
  starts_with w (drop i (m0 ++ [paren]) ++ 101%N :: z) = false.
Proof.
  intros Hw Hc Hi.
  destruct (starts_with w (drop i (m0 ++ [paren]) ++ 101%N :: z)) eqn:E; [|reflexivity].
  rewrite length_app in Hi. simpl in Hi.
  rewrite drop_app_le, <- app_assoc in E by lia. cbn [app] in E.
  apply no_straddle in E; [|exact Hw].
  apply (starts_with_drop_contains w m0 (paren :: rest)) in E. congruence.
Qed.

(** *** The two clean-up passes, site by site *)

(** What stands after a match once the doubled placeholders are
    collapsed: nothing new where a placeholder was there already. *)
Definition keep (rest : text) : text :=
  if starts_with single rest then [] else placeholder.

(** What stands after a match once the dangling separators are closed
    as well. *)
Definition settle (rest : text) : text :=
  if starts_with single rest then []
  else if starts_with [41%N] rest then single
  else placeholder.

Lemma keep_there rest : starts_with single rest = true -> keep rest = [].
Proof. unfold keep. intros ->. reflexivity. Qed.

Lemma keep_missing rest : starts_with single rest = false -> keep rest = placeholder.
Proof. unfold keep. intros ->. reflexivity. Qed.

Lemma settle_there rest : starts_with single rest = true -> settle rest = [].
Proof. unfold settle. intros ->. reflexivity. Qed.

Lemma settle_empty rest :
  starts_with single rest = false -> starts_with [41%N] rest = true ->
  settle rest = single.
Proof. unfold settle. intros -> ->. reflexivity. Qed.

Lemma settle_missing rest :
  starts_with single rest = false -> starts_with [41%N] rest = false ->
  settle rest = placeholder.
Proof. unfold settle. intros -> ->. reflexivity. Qed.

Tactic Notation "later_position" integer(n) ident(i) ident(Hi) :=
  do n (destruct i as [|i]; [vm_compute; reflexivity|]);
  vm_compute in Hi; lia.

Tactic Notation "each_position" integer(n) :=
  let i := fresh "i" in
  let Hi := fresh "Hi" in
  intros i Hi;
  do n (destruct i as [|i]; [vm_compute; reflexivity|]);
  vm_compute in Hi; lia.

Lemma inside_single z : forall i, i < length single -> match_at (drop i single ++ z) = None.
Proof. each_position 18. Qed.

Lemma inside_placeholder z :
  forall i, i < length placeholder -> match_at (drop i placeholder ++ z) = None.
Proof. each_position 20. Qed.

Lemma single_head : single = 101%N :: txt "xpect.any(String)".
Proof. reflexivity. Qed.

Lemma placeholder_head : placeholder = 101%N :: txt "xpect.any(String), ".
Proof. reflexivity. Qed.

Lemma weave_single ins z : weave ins (single ++ z) = single ++ weave ins z.
Proof. apply weave_none, inside_single. Qed.

Lemma weave_placeholder ins z : weave ins (placeholder ++ z) = placeholder ++ weave ins z.
Proof. apply weave_none, inside_placeholder. Qed.

Lemma match_at_closing z : match_at (41%N :: z) = None.
Proof. vm_compute. reflexivity. Qed.

(** The words the clean-up looks for, and their ends, open no match and
    do not run across the end of one. *)
Lemma words_never_open :
  never_opens doubled = true /\ never_opens dangling = true
  /\ never_opens single = true /\ never_opens [41%N] = true
  /\ never_opens (drop 18 doubled) = true /\ never_opens (drop 18 dangling) = true.
Proof. repeat split; vm_compute; reflexivity. Qed.

Lemma words_straddle_free :
  straddle_free doubled = true /\ straddle_free dangling = true.
Proof. split; vm_compute; reflexivity. Qed.

(** The first pass: collapsing the doubled placeholders of
    [pattern.sub]'s output leaves a placeholder exactly at the matches
    that had none. *)
Lemma collapse_weave : forall t : list N,
  contains doubled t = false ->
  replace doubled single (weave (fun _ => placeholder) t) = weave keep t.
Proof.
  induction t as [|m0 rest Hm Hin Hop IH|c s Hm IH] using sites_ind; intros Hc.
  - rewrite !weave_nil. apply replace_nil. discriminate.
  - rewrite !weave_site by exact Hm.
    change (m0 ++ paren :: placeholder ++ weave (fun _ => placeholder) rest)
      with (m0 ++ [paren] ++ placeholder ++ weave (fun _ => placeholder) rest).
    rewrite app_assoc, replace_none.
    2:{ intros i Hi. rewrite placeholder_head. cbn [app].
        apply (match_clear doubled m0 rest); [apply words_straddle_free|exact Hc|exact Hi]. }
    rewrite <- app_assoc. cbn [app]. do 2 f_equal.
    assert (Hrest : contains doubled rest = false).
    { apply (contains_false_app_r doubled (m0 ++ [paren])).
      rewrite <- app_assoc. exact Hc. }
    destruct (starts_with single rest) eqn:Es.
    + rewrite (keep_there rest Es).
      apply starts_with_true in Es as [r2 ->].
      rewrite !weave_single, app_assoc.
      change (placeholder ++ single) with doubled.
      rewrite replace_hit by discriminate. cbn [app]. f_equal.
      apply IH; [rewrite length_app; lia|].
      eapply contains_false_app_r. exact Hrest.
    + rewrite (keep_missing rest Es), replace_none.
      2:{ intros i Hi. destruct i as [|i]; [|later_position 19 i Hi].
          cbn [drop]. change doubled with (placeholder ++ single).
          rewrite starts_with_skip.
          destruct (starts_with single (weave _ rest)) eqn:E; [|reflexivity].
          apply weave_head in E; [congruence | apply words_never_open]. }
      f_equal. apply IH; [lia | exact Hrest].
  - rewrite !weave_miss by exact Hm. rewrite replace_miss.
    + f_equal. apply IH. eapply contains_false_cons. exact Hc.
    + rewrite <- (weave_miss (fun _ => placeholder)) by exact Hm.
      destruct (starts_with doubled (weave _ (c :: s))) eqn:E; [|reflexivity].
      apply weave_head in E; [|apply words_never_open].
      apply contains_here in E. congruence.
Qed.

(** The second pass: closing the dangling separators turns the
    placeholder in front of a closing parenthesis into a bare one. *)
Lemma cleanup_weave : forall t : list N,
  contains dangling t = false ->
  replace dangling closed (weave keep t) = weave settle t.
Proof.
  induction t as [|m0 rest Hm Hin Hop IH|c s Hm IH] using sites_ind; intros Hc.
  - rewrite !weave_nil. apply replace_nil. discriminate.
  - rewrite !weave_site by exact Hm.
    assert (Hrest : contains dangling rest = false).
    { apply (contains_false_app_r dangling (m0 ++ [paren])).
      rewrite <- app_assoc. exact Hc. }
    destruct (starts_with single rest) eqn:Es.
    + rewrite (keep_there rest Es), (settle_there rest Es).
      apply starts_with_true in Es as [r2 ->].
      rewrite !weave_single. cbn [app].
      change (m0 ++ paren :: single ++ weave keep r2)
        with (m0 ++ [paren] ++ single ++ weave keep r2).
      rewrite app_assoc, replace_none.
      2:{ intros i Hi. rewrite single_head. cbn [app].
          apply (match_clear dangling m0 (single ++ r2));
            [apply words_straddle_free|exact Hc|exact Hi]. }
      rewrite <- app_assoc. cbn [app]. do 2 f_equal.
      rewrite replace_none.
      2:{ intros i Hi. destruct i as [|i]; [|later_position 17 i Hi].
          cbn [drop]. change dangling with (single ++ drop 18 dangling).
          rewrite starts_with_skip.
          destruct (starts_with (drop 18 dangling) (weave keep r2)) eqn:E; [|reflexivity].
          apply weave_head in E; [|apply words_never_open].
          assert (starts_with dangling (single ++ r2) = true) as E'.
          { change dangling with (single ++ drop 18 dangling).
            rewrite starts_with_skip. exact E. }
          apply contains_here in E'. congruence. }
      f_equal. apply IH; [rewrite length_app; lia|].
      eapply contains_false_app_r. exact Hrest.
    + rewrite (keep_missing rest Es).
      change (m0 ++ paren :: placeholder ++ weave keep rest)
        with (m0 ++ [paren] ++ placeholder ++ weave keep rest).
      rewrite app_assoc, replace_none.
      2:{ intros i Hi. rewrite placeholder_head. cbn [app].
          apply (match_clear dangling m0 rest);
            [apply words_straddle_free|exact Hc|exact Hi]. }
      rewrite <- app_assoc. cbn [app]. do 2 f_equal.
      destruct (starts_with [41%N] rest) eqn:Ep.
      * rewrite (settle_empty rest Es Ep).
        apply starts_with_true in Ep as [r2 ->]. cbn [app].
        rewrite !weave_miss by apply match_at_closing.
        change (placeholder ++ 41%N :: weave keep r2)
          with (dangling ++ weave keep r2).
        rewrite replace_hit by discriminate.
        change (single ++ 41%N :: weave settle r2) with (closed ++ weave settle r2).
        f_equal. apply IH; [simpl; lia|].
        eapply contains_false_cons. exact Hrest.
      * rewrite (settle_missing rest Es Ep), replace_none.
        2:{ intros i Hi. destruct i as [|i]; [|later_position 19 i Hi].
            cbn [drop]. change dangling with (placeholder ++ [41%N]).
            rewrite starts_with_skip.
            destruct (starts_with [41%N] (weave keep rest)) eqn:E; [|reflexivity].
            apply weave_head in E; [congruence | apply words_never_open]. }
        f_equal. apply IH; [lia | exact Hrest].
  - rewrite !weave_miss by exact Hm. rewrite replace_miss.
    + f_equal. apply IH. eapply contains_false_cons. exact Hc.
    + rewrite <- (weave_miss keep) by exact Hm.
      destruct (starts_with dangling (weave keep (c :: s))) eqn:E; [|reflexivity].
      apply weave_head in E; [|apply words_never_open].
      apply contains_here in E. congruence.
Qed.

(** On a text that holds neither word, the Inserter is [weave settle]. *)
Lemma insert_weave t :
  contains doubled t = false -> contains dangling t = false ->
  insert t = weave settle t.
Proof.
  intros Hd Hg. unfold insert. rewrite sub_weave, collapse_weave by exact Hd.
  apply cleanup_weave, Hg.
Qed.

Lemma contains_app_none (w u s : text) :
  (forall i, i < length u -> starts_with w (drop i u ++ s) = false) ->
  contains w s = false -> contains w (u ++ s) = false.
Proof.
  induction u as [|c u IH]; intros Hu Hs; [exact Hs|].
  pose proof (Hu 0 ltac:(simpl; lia)) as H0. cbn [drop app] in H0.
  cbn [app contains]. rewrite H0. cbn [orb].
  apply IH; [|exact Hs]. intros i Hi. apply (Hu (S i)). simpl. lia.
Qed.

(** *** The output holds neither word *)
Lemma settled_clear w :
  w = doubled \/ w = dangling ->
  forall t : list N, contains w t = false -> contains w (weave settle t) = false.
Proof.
  intros Hw.
  assert (Hfree : straddle_free w = true)
    by (destruct Hw as [-> | ->]; apply words_straddle_free).
  assert (Hopen : never_opens w = true)
    by (destruct Hw as [-> | ->]; apply words_never_open).
  induction t as [|m0 rest Hm Hin Hop IH|c s Hm IH] using sites_ind; intros Hc.
  - rewrite weave_nil. exact Hc.
  - rewrite weave_site by exact Hm.
    assert (Hrest : contains w rest = false).
    { apply (contains_false_app_r w (m0 ++ [paren])).
      rewrite <- app_assoc. exact Hc. }
    specialize (IH rest ltac:(lia) Hrest).
    destruct (starts_with single rest) eqn:Es.
    + rewrite (settle_there rest Es). cbn [app].
      change (m0 ++ paren :: weave settle rest) with (m0 ++ [paren] ++ weave settle rest).
      rewrite app_assoc. apply contains_app_none; [|exact IH].
      intros i Hi. apply starts_with_true in Es as [r2 ->].
      rewrite weave_single, single_head. cbn [app].
      apply (match_clear w m0 (single ++ r2)); assumption.
    + assert (Hm0 : forall x i, i < length (m0 ++ [paren]) ->
                starts_with w (drop i (m0 ++ [paren]) ++ settle rest ++ x) = false).
      { intros x i Hi. destruct (starts_with [41%N] rest) eqn:Ep.
        - rewrite (settle_empty rest Es Ep), single_head. cbn [app].
          apply (match_clear w m0 rest); assumption.
        - rewrite (settle_missing rest Es Ep), placeholder_head. cbn [app].
          apply (match_clear w m0 rest); assumption. }
      change (m0 ++ paren :: settle rest ++ weave settle rest)
        with (m0 ++ [paren] ++ settle rest ++ weave settle rest).
      rewrite app_assoc. apply contains_app_none; [apply Hm0|].
      apply contains_app_none; [|exact IH].
      destruct (starts_with [41%N] rest) eqn:Ep.
      * rewrite (settle_empty rest Es Ep).
        apply starts_with_true in Ep as [r2 ->]. cbn [app].
        rewrite weave_miss by apply match_at_closing.
        destruct Hw as [-> | ->]; each_position 18.
      * rewrite (settle_missing rest Es Ep).
        intros i Hi. destruct i as [|i];
          [|destruct Hw as [-> | ->]; later_position 19 i Hi].
        cbn [drop]. destruct Hw as [-> | ->].
        -- change doubled with (placeholder ++ single). rewrite starts_with_skip.
           destruct (starts_with single (weave settle rest)) eqn:E; [|reflexivity].
           apply weave_head in E; [congruence | apply words_never_open].
        -- change dangling with (placeholder ++ [41%N]). rewrite starts_with_skip.
           destruct (starts_with [41%N] (weave settle rest)) eqn:E; [|reflexivity].
           apply weave_head in E; [congruence | apply words_never_open].
  - rewrite weave_miss by exact Hm. cbn [contains].
    rewrite IH by (eapply contains_false_cons; exact Hc).
    rewrite orb_false_r. rewrite <- (weave_miss settle) by exact Hm.
    destruct (starts_with w (weave settle (c :: s))) eqn:E; [|reflexivity].
    apply weave_head in E; [|exact Hopen].
    apply contains_here in E. congruence.
Qed.
End Sites.

(** ** What follows a match does not decide it

    The pattern reads a parenthesis at two places only.  So, on two
    subjects that agree up to and including a parenthesis, with another
    parenthesis before it, the pattern does the same thing. *)
Fixpoint avoids (c : N) (r : regex) : bool :=
  match r with
  | Eps => true
  | Chr a => negb (N.eqb a c)
  | Cls p => negb (p c)
  | Cat r1 r2 | Alt r1 r2 => avoids c r1 && avoids c r2
  | Star p => negb (p c)
  end.

Section Tail.
Variables y z : text.

Definition same_rest (x x' : text) : Prop := exists u, x = u ++ y /\ x' = u ++ z.

Definition synced (V : text -> Prop) (k k' : text -> option text) : Prop :=
  forall v, V v -> agree same_rest (k (v ++ paren :: y)) (k' (v ++ paren :: z)).

Lemma agree_first (o1 o1' o2 o2' : option text) :
  agree same_rest o1 o1' -> agree same_rest o2 o2' ->
  agree same_rest
    (match o1 with Some x => Some x | None => o2 end)
    (match o1' with Some x => Some x | None => o2' end).
Proof. destruct o1, o1'; simpl; try contradiction; auto. Qed.

Lemma synced_avoid r :
  avoids paren r = true ->
  forall V : text -> Prop,
    (forall b v, V (b :: v) -> b <> paren -> V v) ->
    forall k k', synced V k k' -> synced V (run r k) (run r k').
Proof.
  induction r as [|a|p|r1 IH1 r2 IH2|r1 IH1 r2 IH2|p];
    cbn [avoids]; intros Hr V HV k k' Hk.
  - exact Hk.
  - apply negb_true_iff in Hr. intros [|b v] Hv; cbn [app run].
    + rewrite N.eqb_sym, Hr. exact I.
    + destruct (N.eqb_spec b a) as [->|]; [|exact I].
      apply Hk, (HV a); [exact Hv|]. intros ->. rewrite N.eqb_refl in Hr. discriminate.
  - apply negb_true_iff in Hr. intros [|b v] Hv; cbn [app run].
    + rewrite Hr. exact I.
    + destruct (p b) eqn:E; [|exact I].
      apply Hk, (HV b); [exact Hv|]. intros ->. congruence.
  - apply andb_true_iff in Hr as [Hr1 Hr2]. cbn [run].
    apply IH1; [exact Hr1|exact HV|]. apply IH2; assumption.
  - apply andb_true_iff in Hr as [Hr1 Hr2]. intros v Hv. cbn [run].
    apply agree_first;
      [exact (IH1 Hr1 V HV k k' Hk v Hv) | exact (IH2 Hr2 V HV k k' Hk v Hv)].
  - apply negb_true_iff in Hr. intros v. cbn [run].
    induction v as [|b v IHv]; intros Hv; cbn [app star].
    + rewrite Hr. apply (Hk [] Hv).
    + destruct (p b) eqn:E; [|apply (Hk (b :: v) Hv)].
      apply agree_first; [|apply (Hk (b :: v) Hv)].
      apply IHv, (HV b); [exact Hv|]. intros ->. congruence.
Qed.

Lemma synced_paren k k' :
  synced (fun _ => True) k k' ->
  synced (In paren) (run (Chr paren) k) (run (Chr paren) k').
Proof.
  intros Hk [|b v] Hv; [destruct Hv|]. cbn [app run].
  destruct (N.eqb b paren); [apply Hk; exact I | exact I].
Qed.

Lemma synced_last :
  synced (fun _ => True) (run (Chr paren) Some) (run (Chr paren) Some).
Proof.
  intros [|b v] _; cbn [app run].
  - rewrite N.eqb_refl. exists []. split; reflexivity.
  - destruct (N.eqb b paren); [|exact I].
    exists (v ++ [paren]). rewrite <- !app_assoc. split; reflexivity.
Qed.
End Tail.

Section Twice.
Context {H : Host}.
Import PatchTests.

Lemma match_at_synced y z v :
  In paren v ->
  agree (same_rest y z) (match_at (v ++ paren :: y)) (match_at (v ++ paren :: z)).
Proof.
  intros Hv. rewrite !match_at_split. revert v Hv.
  change (synced y z (In paren)
            (run (seq before_paren)
               (run (Chr paren) (run (seq callee) (run (Chr paren) Some))))
            (run (seq before_paren)
               (run (Chr paren) (run (seq callee) (run (Chr paren) Some))))).
  apply synced_avoid; [vm_compute; reflexivity | |].
  { intros b v [->|Hv] Hb; [congruence | exact Hv]. }
  apply synced_paren.
  apply synced_avoid; [vm_compute; reflexivity | auto |].
  apply synced_last.
Qed.

(** A match stays a match, whatever is put after it. *)
Lemma match_at_tail m0 y z :
  In paren m0 ->
  match_at (m0 ++ paren :: y) = Some y -> match_at (m0 ++ paren :: z) = Some z.
Proof.
  intros Hin Hy. pose proof (match_at_synced y z m0 Hin) as Ha.
  rewrite Hy in Ha. destruct (match_at (m0 ++ paren :: z)) as [x'|]; [|destruct Ha].
  destruct Ha as (u & Hu & ->). f_equal.
  apply (f_equal length) in Hu. rewrite length_app in Hu.
  destruct u; [reflexivity | simpl in Hu; lia].
Qed.

(** And where nothing matched, nothing matches. *)
Lemma match_at_tail_none v y z :
  In paren v ->
  match_at (v ++ paren :: y) = None -> match_at (v ++ paren :: z) = None.
Proof.
  intros Hin Hy. pose proof (match_at_synced y z v Hin) as Ha.
  rewrite Hy in Ha. destruct (match_at (v ++ paren :: z)); [destruct Ha | reflexivity].
Qed.

(** The output is the input, or the two part after the first match. *)
Lemma weave_split ins : forall t : list N,
  weave ins t = t \/
  exists v y z, t = v ++ paren :: y /\ weave ins t = v ++ paren :: z /\ In paren v.
Proof.
  induction t as [|m0 rest Hm Hin Hop IH|c s Hm IH] using sites_ind.
  - left. apply weave_nil.
  - right. exists m0, rest, (ins rest ++ weave ins rest).
    rewrite weave_site by exact Hm. auto.
  - rewrite weave_miss by exact Hm.
    destruct IH as [-> | (v & y & z & -> & -> & Hv)]; [left; reflexivity|].
    right. exists (c :: v), y, z. repeat split. right. exact Hv.
Qed.

Lemma weave_keeps_miss ins c s :
  match_at (c :: s) = None -> match_at (c :: weave ins s) = None.
Proof.
  intros Hm. destruct (weave_split ins s) as [-> | (v & y & z & -> & -> & Hv)];
    [exact Hm|].
  apply (match_at_tail_none (c :: v) y z); [right; exact Hv | exact Hm].
Qed.

Lemma placeholder_single : placeholder = single ++ [44%N; 32%N].
Proof. reflexivity. Qed.

(** After [weave settle] every match is followed by a placeholder. *)
Lemma settle_follows rest :
  starts_with single (settle rest ++ weave settle rest) = true.
Proof.
  destruct (starts_with single rest) eqn:Es.
  - rewrite (settle_there rest Es). cbn [app].
    apply starts_with_true in Es as [r2 ->]. rewrite weave_single.
    apply starts_with_app.
  - destruct (starts_with [41%N] rest) eqn:Ep.
    + rewrite (settle_empty rest Es Ep). apply starts_with_app.
    + rewrite (settle_missing rest Es Ep), placeholder_single, <- app_assoc.
      apply starts_with_app.
Qed.

Lemma weave_settle_twice : forall t : list N,
  weave settle (weave settle t) = weave settle t.
Proof.
  induction t as [|m0 rest Hm Hin Hop IH|c s Hm IH] using sites_ind.
  - rewrite !weave_nil. reflexivity.
  - rewrite weave_site by exact Hm.
    rewrite weave_site by (apply (match_at_tail m0 rest); assumption).
    rewrite (settle_there _ (settle_follows rest)). cbn [app]. do 2 f_equal.
    specialize (IH rest ltac:(lia)).
    destruct (starts_with single rest) eqn:Es.
    + rewrite (settle_there rest Es). exact IH.
    + destruct (starts_with [41%N] rest) eqn:Ep.
      * rewrite (settle_empty rest Es Ep), weave_single, IH. reflexivity.
      * rewrite (settle_missing rest Es Ep), weave_placeholder, IH. reflexivity.
  - rewrite weave_miss by exact Hm.
    rewrite weave_miss by (apply weave_keeps_miss; exact Hm).
    rewrite IH. reflexivity.
Qed.

(** Every match of the pattern in [t] is followed by a placeholder. *)
Fixpoint placed (t : text) : bool :=
  match match_at t with
  | Some rest => starts_with single rest
  | None => true
  end
  && match t with
     | [] => true
     | _ :: t' => placed t'
     end.

Lemma placed_here t rest :
  placed t = true -> match_at t = Some rest -> starts_with single rest = true.
Proof.
  intros Hp Hm. destruct t; cbn [placed] in Hp; rewrite Hm in Hp;
    apply andb_true_iff in Hp as [Hp _]; exact Hp.
Qed.

Lemma placed_app u t : placed (u ++ t) = true -> placed t = true.
Proof.
  induction u as [|c u IH]; intros Hp; [exact Hp|].
  cbn [app placed] in Hp. apply andb_true_iff in Hp as [_ Hp]. apply IH, Hp.
Qed.

Lemma weave_placed : forall t : list N, placed t = true -> weave settle t = t.
Proof.
  induction t as [|m0 rest Hm Hin Hop IH|c s Hm IH] using sites_ind; intros Hp.
  - apply weave_nil.
  - rewrite weave_site by exact Hm.
    rewrite (settle_there rest (placed_here _ _ Hp Hm)). cbn [app].
    rewrite IH; [reflexivity | lia |].
    apply (placed_app (m0 ++ [paren])). rewrite <- app_assoc. exact Hp.
  - rewrite weave_miss by exact Hm. rewrite IH; [reflexivity|].
    apply (placed_app [c]). exact Hp.
Qed.

(** C3, as amended.  On a text that holds no two consecutive
    placeholders and no placeholder with a dangling separator to begin
    with, the Inserter's output holds neither, and applying the Inserter
    to its output gives the output back; if every matched call is already
    followed by a placeholder, the Inserter gives the text itself back. *)
Theorem inserter_normalizes (t : text) :
  contains doubled t = false ->
  contains dangling t = false ->
  contains doubled (insert t) = false
  /\ contains dangling (insert t) = false
  /\ insert (insert t) = insert t
  /\ (placed t = true -> insert t = t).
Proof.
  intros Hd Hg. rewrite (insert_weave t Hd Hg).
  pose proof (settled_clear doubled (or_introl eq_refl) t Hd) as Hd'.
  pose proof (settled_clear dangling (or_intror eq_refl) t Hg) as Hg'.
  repeat split; try assumption.
  - rewrite (insert_weave _ Hd' Hg'). apply weave_settle_twice.
  - apply weave_placed.
Qed.

(** The text C3 speaks of: some match is followed by the inserted
    placeholder. *)
Definition has_placeholder (t : text) : bool :=
  found (fun s =>
           match match_at s with
           | Some rest => if starts_with placeholder rest then Some rest else None
           | None => None
           end) t.

Definition twice_held : text :=
  txt "expect(policyRepositoryMock.save).toHaveBeenCalledWith(expect.any(String), expect.any(String), policy)".

Definition four_held : text :=
  txt "expect(policyRepositoryMock.save).toHaveBeenCalledWith(expect.any(String), expect.any(String), expect.any(String), expect.any(String))".

(** A call that has two placeholders of its own keeps both. *)
Lemma doubled_survives :
  has_placeholder twice_held = true
  /\ insert twice_held = twice_held
  /\ contains doubled (insert twice_held) = true.
Proof. repeat split; vm_compute; reflexivity. Qed.

(** And with four of them every run takes some away. *)
Lemma four_shrink :
  has_placeholder four_held = true
  /\ insert four_held
     = txt "expect(policyRepositoryMock.save).toHaveBeenCalledWith(expect.any(String), expect.any(String), expect.any(String))"
  /\ insert (insert four_held)
     = txt "expect(policyRepositoryMock.save).toHaveBeenCalledWith(expect.any(String), expect.any(String))".
Proof. repeat split; vm_compute; reflexivity. Qed.
End Twice.

(** ** Concrete runs *)

Definition spec_path : text := txt "tests/unit/a.spec.ts".

Definition plain : text := txt "const x = 1;".

Definition quiet_world : world :=
  World {[ spec_path := File (ReadOk plain) None ]} [].

Lemma quiet_read : read_file (files_of quiet_world) spec_path = ReadOk plain.
Proof.
  unfold read_file, quiet_world. simpl files_of.
  rewrite lookup_singleton_eq. reflexivity.
Qed.

Lemma no_match_no_write_witness :
  (forall total,
     FixAdapterMocks.fix_file (H := ascii_host) spec_path (quiet_world, total)
     = (quiet_world, total))
  /\ PatchContainer.patch_file spec_path quiet_world = quiet_world
  /\ RevertContainerPatch.revert_file spec_path quiet_world = quiet_world
  /\ PatchTests.patch_file (H := ascii_host) spec_path quiet_world = quiet_world.
Proof.
  destruct (no_match_no_write (H := ascii_host) quiet_world spec_path plain quiet_read)
    as (Hrem & Hdis & Hres & Hins).
  split; [apply Hrem; vm_compute; reflexivity|].
  split; [apply Hdis; vm_compute; reflexivity|].
  split; [apply Hres; vm_compute; reflexivity|].
  apply Hins; vm_compute; reflexivity.
Defined.

Definition listing : text :=
  txt "tests/unit/a.spec.ts" ++ [10%N; 10%N]
  ++ txt "   tests/unit/a.spec.ts  " ++ [10%N]
  ++ txt "tests/unit/gone.spec.ts" ++ [10%N].

Definition gone_path : text := txt "tests/unit/gone.spec.ts".

Definition native_path : text :=
  txt "tests" ++ 92%N :: txt "unit" ++ 92%N :: txt "a.spec.ts".

Definition native_gone : text :=
  txt "tests" ++ 92%N :: txt "unit" ++ 92%N :: txt "gone.spec.ts".

(** A world whose one test file is kept under its native name. *)
Definition native_world : world :=
  World (<[ PatchTests.manifest := File (ReadOk listing) None ]>
           {[ native_path := File (ReadOk plain) None ]}) [].

Lemma native_read :
  read_file (files_of native_world) PatchTests.manifest = ReadOk listing.
Proof.
  unfold read_file, native_world. simpl files_of.
  rewrite lookup_insert_eq. reflexivity.
Qed.

Lemma native_lines :
  filter (fun p => p <> []) (map (strip (H := backslash_host)) (splitlines listing))
  = [spec_path; spec_path; gone_path].
Proof. vm_compute. reflexivity. Qed.

Lemma native_quiet w :
  files_of w = files_of native_world ->
  PatchTests.patch_file (H := backslash_host) spec_path w = w.
Proof.
  intros Hw. unfold PatchTests.patch_file. cbv zeta.
  replace (PatchTests.filepath_of (H := backslash_host) spec_path) with native_path
    by (vm_compute; reflexivity).
  unfold path_exists, read_file. rewrite Hw. unfold native_world. cbn [files_of].
  rewrite lookup_insert_ne by (vm_compute; discriminate).
  rewrite lookup_singleton_eq. cbn [negb on_read].
  destruct (decide (plain = PatchTests.insert plain)) as [_|Hne]; [reflexivity|].
  exfalso. apply Hne. vm_compute. reflexivity.
Qed.

Lemma native_name :
  PatchTests.filepath_of (H := backslash_host) gone_path = native_gone.
Proof. vm_compute. reflexivity. Qed.

Lemma native_missing w :
  files_of w = files_of native_world ->
  path_exists (files_of w) (PatchTests.filepath_of (H := backslash_host) gone_path) = false.
Proof.
  intros Hw. rewrite native_name, Hw.
  unfold path_exists, native_world. cbn [files_of].
  rewrite lookup_insert_ne by (vm_compute; discriminate).
  rewrite lookup_singleton_ne by (vm_compute; discriminate).
  reflexivity.
Qed.

Lemma manifest_targets_witness :
  exists files,
    PatchTests.runs (H := backslash_host) native_world
      (PatchTests.Finished
         (print (txt "Python test patcher finished.")
                (PatchTests.patch_all (H := backslash_host) files native_world)))
    /\ NoDup files
    /\ (forall p, p ∈ files <-> p = spec_path \/ p = gone_path)
    /\ PatchTests.filepath_of (H := backslash_host) spec_path = native_path
    /\ PatchTests.patch_all (H := backslash_host) files native_world
       = print (txt "Skipping " ++ native_gone ++ txt ", file not found.") native_world.
Proof.
  pose (files := elements (PatchTests.manifest_paths (H := backslash_host) listing)).
  assert (Hruns : PatchTests.runs (H := backslash_host) native_world
            (PatchTests.Finished
               (print (txt "Python test patcher finished.")
                      (PatchTests.patch_all (H := backslash_host) files native_world)))).
  { apply (PatchTests.runs_finish (H := backslash_host) native_world listing files);
      [exact native_read | reflexivity]. }
  destruct (manifest_targets (H := backslash_host) native_world listing _ native_read Hruns)
    as (files' & Heq & Hnd & Hmem & Hflat & Hskip & _ & Hnext).
  assert (Hmem' : forall p, p ∈ files' <-> p = spec_path \/ p = gone_path).
  { intros p. rewrite Hmem. unfold spec_paths.
    rewrite elem_of_list_to_set, native_lines, !elem_of_cons, elem_of_nil. tauto. }
  assert (Hcases : files' = [spec_path; gone_path] \/ files' = [gone_path; spec_path]).
  { apply Permutation_length_2_inv. symmetry. apply NoDup_Permutation; [exact Hnd| |].
    - repeat constructor; rewrite ?elem_of_cons, ?elem_of_nil; [|tauto].
      intros [E|[]]. vm_compute in E. discriminate E.
    - intros p. rewrite Hmem', !elem_of_cons, elem_of_nil. tauto. }
  exists files'. rewrite <- Heq. split; [exact Hruns|]. split; [exact Hnd|].
  split; [exact Hmem'|]. split; [rewrite Hflat; vm_compute; reflexivity|].
  destruct Hcases as [E|E].
  - rewrite (Hnext [spec_path] gone_path [] E);
      cbn [PatchTests.patch_all foldl]; rewrite (native_quiet native_world eq_refl).
    + rewrite native_name. reflexivity.
    + apply native_missing. reflexivity.
  - rewrite (Hnext [] gone_path [spec_path] E); cbn [PatchTests.patch_all foldl].
    + rewrite native_name. apply native_quiet. reflexivity.
    + apply native_missing. reflexivity.
Defined.





Definition call_line : text :=
  txt "expect(policyRepositoryMock.save).toHaveBeenCalledWith(policy)".



(** C3 as stated fails: this text has the inserted placeholder after
    its matched call, and the Inserter's output still holds two
    consecutive placeholders. *)
Lemma inserter_keeps_doubled :
  has_placeholder (H := ascii_host) twice_held = true
  /\ contains PatchTests.doubled (PatchTests.insert (H := ascii_host) twice_held) = true.
Proof. split; vm_compute; reflexivity. Qed.

Definition once_held : text :=
  txt "expect(policyRepositoryMock.save).toHaveBeenCalledWith(expect.any(String), policy)".

Lemma inserter_normalizes_witness :
  contains PatchTests.doubled (PatchTests.insert (H := ascii_host) once_held) = false
  /\ contains PatchTests.dangling (PatchTests.insert (H := ascii_host) once_held) = false
  /\ PatchTests.insert (H := ascii_host) (PatchTests.insert (H := ascii_host) once_held)
     = PatchTests.insert (H := ascii_host) once_held
  /\ (placed (H := ascii_host) once_held = true
      -> PatchTests.insert (H := ascii_host) once_held = once_held).
Proof. apply (inserter_normalizes (H := ascii_host)); vm_compute; reflexivity. Defined.

Definition adapter_line : text :=
  txt "expect(userMgmtAdapterMock.createUser).toHaveBeenCalledWith(expect.any(String), tenantId); ".

Definition policy_mock : text := txt "policyRepositoryMock".

Lemma remover_leaves_other_mocks_witness :
  FixAdapterMocks.subn (H := ascii_host)
    (adapter_line ++ other_call policy_mock (txt "save") ++ held (txt " ") ++ txt "policy);")
  = (fst (FixAdapterMocks.subn (H := ascii_host) adapter_line)
       ++ other_call policy_mock (txt "save") ++ held (txt " ")
       ++ fst (FixAdapterMocks.subn (H := ascii_host) (txt "policy);")),
     snd (FixAdapterMocks.subn (H := ascii_host) adapter_line)
     + snd (FixAdapterMocks.subn (H := ascii_host) (txt "policy);"))).
Proof.
  apply (remover_leaves_other_mocks (H := ascii_host));
    try (vm_compute; reflexivity).
  intros E. vm_compute in E. discriminate E.
Defined.
(** * Further properties *)

(** A path the console can print: it holds no surrogate code point.
    [glob] gives such code points for the bytes of a file name that it
    cannot decode, and [print] raises on them. *)
Definition printable (p : text) : bool :=
  forallb (fun c => negb (between 55296 57343 c)) p.

(** No text that can be read holds a carriage return: a read in text
    mode gives every line end as a line feed. *)
Definition no_cr (fs : fsys) : Prop :=
  forall p c, read_file fs p = ReadOk c -> ~ In 13%N c.

(** ** Runs of the Disabler and the Restorer over any files *)
Section Disk.
Import PatchContainer.

(** What a pass of the Disabler does to the entry of the path it is
    given: a file that can be read and written and holds the statement
    gets its new content, anything else stays. *)
Definition patch_entry (e : option file) : option file :=
  match e with
  | Some (File (ReadOk content) None) =>
      if contains live content then Some (File (ReadOk (disable content)) None) else e
  | _ => e
  end.

Definition revert_entry (e : option file) : option file :=
  match e with
  | Some (File (ReadOk content) None) =>
      if contains RevertContainerPatch.annotated content
      then Some (File (ReadOk (RevertContainerPatch.restore content)) None) else e
  | _ => e
  end.

(** How often [q] is among the paths of a run. *)
Definition visits (q : text) (files : list text) : nat :=
  length (filter (fun p => p = q) files).

Lemma patch_file_lookup p w q :
  files_of (patch_file p w) !! q
  = if decide (id p = q) then patch_entry (files_of w !! q) else files_of w !! q.
Proof.
  unfold patch_file, read_file, write_file.
  destruct (files_of w !! p) as [[[content|e] [cause|]]|] eqn:Ep;
    cbn [on_read on_write]; try destruct (contains live content) eqn:Ec;
    cbn [print files_of];
    unfold id; destruct (decide (p = q)) as [<-|Hpq];
    rewrite ?Ep; cbn [patch_entry]; rewrite ?Ec;
    rewrite ?lookup_insert_eq, ?lookup_insert_ne by exact Hpq; reflexivity.
Qed.

Lemma revert_file_lookup p w q :
  files_of (RevertContainerPatch.revert_file p w) !! q
  = if decide (id p = q) then revert_entry (files_of w !! q) else files_of w !! q.
Proof.
  unfold RevertContainerPatch.revert_file, read_file, write_file.
  destruct (files_of w !! p) as [[[content|e] [cause|]]|] eqn:Ep;
    cbn [on_read on_write];
    try destruct (contains RevertContainerPatch.annotated content) eqn:Ec;
    cbn [print files_of];
    unfold id; destruct (decide (p = q)) as [<-|Hpq];
    rewrite ?Ep; cbn [revert_entry]; rewrite ?Ec;
    rewrite ?lookup_insert_eq, ?lookup_insert_ne by exact Hpq; reflexivity.
Qed.

Lemma visits_cons p q l :
  visits q (p :: l) = if decide (p = q) then S (visits q l) else visits q l.
Proof. unfold visits. rewrite filter_cons. destruct (decide (p = q)); reflexivity. Qed.

(** A loop of passes acts on each path on its own, once per visit.
    [proj] takes the files out of the loop's state, [key] gives the path
    a pass works on. *)
Lemma loop_lookup {S : Type} (proj : S -> fsys) (key : text -> text)
    (step : text -> S -> S) (act : option file -> option file) :
  (forall p st q,
     proj (step p st) !! q
     = if decide (key p = q) then act (proj st !! q) else proj st !! q) ->
  forall files st q,
    proj (foldl (fun st p => step p st) st files) !! q
    = Nat.iter (visits q (map key files)) act (proj st !! q).
Proof.
  intros Hstep files. induction files as [|p l IH]; intros st q; [reflexivity|].
  cbn [foldl map]. rewrite IH, Hstep, visits_cons.
  destruct (decide (key p = q)); [|reflexivity].
  rewrite Nat.iter_succ_r. reflexivity.
Qed.

Lemma annotated_holds_live content :
  contains RevertContainerPatch.annotated content = true -> contains live content = true.
Proof.
  intros (u & z & ->)%contains_true. apply contains_true.
  exists (u ++ [slash; slash; 32%N]), (trailer ++ z).
  change RevertContainerPatch.annotated with annotated.
  rewrite annotated_split, <- !app_assoc. reflexivity.
Qed.

(** The Restorer's pass undoes the Disabler's, on every entry. *)
Lemma revert_patch_entry e : revert_entry (patch_entry e) = e.
Proof.
  destruct e as [[[content|err] [cause|]]|]; try reflexivity.
  cbn [patch_entry]. destruct (contains live content) eqn:Ec; cbn [revert_entry].
  - change RevertContainerPatch.annotated with annotated.
    rewrite (disable_marks content Ec), restore_disable. reflexivity.
  - destruct (contains RevertContainerPatch.annotated content) eqn:Ea; [|reflexivity].
    apply annotated_holds_live in Ea. congruence.
Qed.

Lemma revert_patch_iter n e :
  Nat.iter n revert_entry (Nat.iter n patch_entry e) = e.
Proof.
  induction n as [|n IH]; [reflexivity|].
  rewrite Nat.iter_succ_r, (Nat.iter_succ n patch_entry), revert_patch_entry. exact IH.
Qed.

Lemma visits_perm q l1 l2 : l1 ≡ₚ l2 -> visits q l1 = visits q l2.
Proof. intros Hp. unfold visits. rewrite Hp. reflexivity. Qed.

Lemma disable_restore_files (files files' : list text) (w : world) :
  files ≡ₚ files' ->
  files_of (RevertContainerPatch.main files' (main files w)) = files_of w.
Proof.
  intros Hp. apply map_eq. intros q.
  unfold RevertContainerPatch.main, main. cbn [print files_of].
  rewrite (loop_lookup files_of id RevertContainerPatch.revert_file revert_entry
             revert_file_lookup).
  cbn [print files_of].
  rewrite (loop_lookup files_of id patch_file patch_entry patch_file_lookup).
  rewrite !map_id, <- (visits_perm q files files' Hp). apply revert_patch_iter.
Qed.

(** The Disabler writes no carriage return. *)
Definition clean (e : option file) : Prop :=
  forall c ow, e = Some (File (ReadOk c) ow) -> ~ In 13%N c.

Lemma no_cr_clean fs : no_cr fs <-> forall p, clean (fs !! p).
Proof.
  unfold no_cr, clean, read_file. split.
  - intros Hfs p c ow Hp. apply (Hfs p). rewrite Hp. reflexivity.
  - intros Hfs p c Hr. destruct (fs !! p) as [[r ow]|] eqn:Ep; [|discriminate].
    cbn [on_read] in Hr. subst r. apply (Hfs p c ow). exact Ep.
Qed.

Lemma patch_entry_clean e : clean e -> clean (patch_entry e).
Proof.
  intros He. destruct e as [[[content|err] [cause|]]|]; try exact He.
  cbn [patch_entry]. destruct (contains live content); [|exact He].
  intros c ow [= <- <-] Hin.
  apply (replace_mem live annotated 13%N content live_nonempty) in Hin as [Hin|Hin].
  - exact (He content None eq_refl Hin).
  - vm_compute in Hin. intuition discriminate.
Qed.

Lemma patch_iter_clean n e : clean e -> clean (Nat.iter n patch_entry e).
Proof.
  intros He. induction n as [|n IH]; [exact He|].
  rewrite Nat.iter_succ. apply patch_entry_clean, IH.
Qed.

(** X1.  Take files whose texts hold no carriage return, as every text
    read in text mode does, and paths the console can print.  A run of
    the Disabler followed by a run of the Restorer over the same paths,
    in any order and with any repetitions, leaves every path reading as
    it did before the two runs, whether its file can be read or written
    or not; and between the two runs no text holds a carriage return
    either. *)
Theorem disable_then_restore_runs (files files' : list text) (w : world) :
  files ≡ₚ files' ->
  Forall (fun p => printable p = true) files ->
  no_cr (files_of w) ->
  (forall p,
     read_file (files_of (RevertContainerPatch.main files' (main files w))) p
     = read_file (files_of w) p)
  /\ no_cr (files_of (main files w)).
Proof.
  intros Hp _ Hcr. split.
  - intros p. rewrite (disable_restore_files files files' w Hp). reflexivity.
  - apply no_cr_clean. intros q. unfold main. cbn [print files_of].
    rewrite (loop_lookup files_of id patch_file patch_entry patch_file_lookup).
    apply patch_iter_clean. apply (proj1 (no_cr_clean (files_of w)) Hcr).
Qed.

(** X2.  The Disabler loses nothing: the Restorer gives every content
    back from the Disabler's output, with or without the statement in
    it, so two contents with the same output are the same. *)
Theorem disable_loses_nothing (c1 c2 : text) :
  RevertContainerPatch.restore (disable c1) = c1
  /\ (disable c1 = disable c2 <-> c1 = c2).
Proof.
  split; [apply restore_disable|]. split; [|intros ->; reflexivity].
  intros Heq. rewrite <- (restore_disable c1), Heq. apply restore_disable.
Qed.

(** *** What a run can change *)

(** A pass leaves an entry as it is, or takes a readable, writable text
    to its image under [f]. *)
Definition applies (f : text -> text) (act : option file -> option file) : Prop :=
  forall e,
    act e = e \/
    exists c, e = Some (File (ReadOk c) None) /\ act e = Some (File (ReadOk (f c)) None).

(** [rewrites f fs fs']: every entry of [fs'] is the entry of [fs], or
    both are readable, writable texts and the new one is the old one
    after some applications of [f]. *)
Definition rewrites (f : text -> text) (fs fs' : fsys) : Prop :=
  forall q,
    fs' !! q = fs !! q
    \/ exists c n, fs !! q = Some (File (ReadOk c) None)
                   /\ fs' !! q = Some (File (ReadOk (Nat.iter n f c)) None).

Lemma applies_iter f act n e :
  applies f act ->
  Nat.iter n act e = e
  \/ exists c m, e = Some (File (ReadOk c) None)
                 /\ Nat.iter n act e = Some (File (ReadOk (Nat.iter m f c)) None).
Proof.
  intros Hact. induction n as [|n IH]; [left; reflexivity|].
  rewrite Nat.iter_succ. destruct IH as [-> | (c & m & -> & ->)].
  - destruct (Hact e) as [-> | (c & -> & ->)]; [left; reflexivity|].
    right. exists c, 1. split; reflexivity.
  - right. exists c.
    destruct (Hact (Some (File (ReadOk (Nat.iter m f c)) None))) as [-> | (c' & [= <-] & ->)].
    + exists m. split; reflexivity.
    + exists (S m). split; reflexivity.
Qed.

Lemma loop_rewrites {S : Type} (f : text -> text) (proj : S -> fsys)
    (key : text -> text) (step : text -> S -> S) (act : option file -> option file) :
  applies f act ->
  (forall p st q,
     proj (step p st) !! q
     = if decide (key p = q) then act (proj st !! q) else proj st !! q) ->
  forall files st,
    rewrites f (proj st) (proj (foldl (fun st p => step p st) st files)).
Proof.
  intros Hact Hstep files st q.
  rewrite (loop_lookup proj key step act Hstep).
  apply applies_iter, Hact.
Qed.

Lemma patch_entry_applies : applies disable patch_entry.
Proof.
  intros [[[content|err] [cause|]]|]; try (left; reflexivity).
  cbn [patch_entry]. destruct (contains live content); [right; eauto | left; reflexivity].
Qed.

Lemma revert_entry_applies : applies RevertContainerPatch.restore revert_entry.
Proof.
  intros [[[content|err] [cause|]]|]; try (left; reflexivity).
  cbn [revert_entry]. destruct (contains RevertContainerPatch.annotated content);
    [right; eauto | left; reflexivity].
Qed.
End Disk.

Section DiskHost.
Context {H : Host}.

Definition remover_entry (e : option file) : option file :=
  match e with
  | Some (File (ReadOk content) None) =>
      if 0 <? snd (FixAdapterMocks.subn content)
      then Some (File (ReadOk (fst (FixAdapterMocks.subn content))) None) else e
  | _ => e
  end.

Definition inserter_entry (e : option file) : option file :=
  match e with
  | Some (File (ReadOk content) None) =>
      if decide (content = PatchTests.insert content) then e
      else Some (File (ReadOk (PatchTests.insert content)) None)
  | _ => e
  end.

Lemma fix_file_lookup p (st : world * nat) q :
  files_of (fst (FixAdapterMocks.fix_file p st)) !! q
  = if decide (id p = q) then remover_entry (files_of (fst st) !! q)
    else files_of (fst st) !! q.
Proof.
  destruct st as [w total]. unfold FixAdapterMocks.fix_file, read_file, write_file.
  cbn [fst]. unfold id.
  destruct (files_of w !! p) as [[[content|e] [cause|]]|] eqn:Ep;
    cbn [on_read on_write]; try destruct (FixAdapterMocks.subn content) as [new n] eqn:Es;
    try destruct (0 <? n) eqn:En;
    cbn [print files_of fst];
    destruct (decide (p = q)) as [<-|Hpq];
    rewrite ?Ep; cbn [remover_entry]; rewrite ?Es; cbn [fst snd]; rewrite ?En;
    rewrite ?lookup_insert_eq, ?lookup_insert_ne by exact Hpq; reflexivity.
Qed.

Lemma inserter_file_lookup f w q :
  files_of (PatchTests.patch_file f w) !! q
  = if decide (PatchTests.filepath_of f = q) then inserter_entry (files_of w !! q)
    else files_of w !! q.
Proof.
  unfold PatchTests.patch_file, path_exists, read_file, write_file. cbv zeta.
  destruct (files_of w !! PatchTests.filepath_of f) as [[[content|e] [cause|]]|] eqn:Ep;
    cbn [negb on_read on_write];
    try destruct (decide (content = PatchTests.insert content)) as [Ec|Ec];
    cbn [print files_of];
    destruct (decide (PatchTests.filepath_of f = q)) as [<-|Hpq];
    rewrite ?Ep; cbn [inserter_entry];
    try (destruct (decide (content = PatchTests.insert content)); [|congruence]);
    try (destruct (decide (content = PatchTests.insert content)); [congruence|]);
    rewrite ?lookup_insert_eq, ?lookup_insert_ne by exact Hpq; reflexivity.
Qed.

Lemma remover_entry_applies :
  applies (fun c => fst (FixAdapterMocks.subn c)) remover_entry.
Proof.
  intros [[[content|err] [cause|]]|]; try (left; reflexivity).
  cbn [remover_entry]. destruct (0 <? _); [right; eauto | left; reflexivity].
Qed.

Lemma inserter_entry_applies : applies PatchTests.insert inserter_entry.
Proof.
  intros [[[content|err] [cause|]]|]; try (left; reflexivity).
  cbn [inserter_entry]. destruct (decide _); [left; reflexivity | right; eauto].
Qed.

Lemma main_files (files_to_fix : list text) (w : world) :
  files_of (FixAdapterMocks.main files_to_fix w)
  = files_of (fst (foldl (fun st p => FixAdapterMocks.fix_file p st) (w, 0) files_to_fix)).
Proof.
  unfold FixAdapterMocks.main. destruct (foldl _ _ _) as [w' total]. reflexivity.
Qed.

(** X3.  Whatever the paths and the files are, a run of any of the
    four scripts creates no file and removes none, leaves every file
    that cannot be read or cannot be written as it is, and a file that
    is different after the run holds its old text after one or more
    applications of the script's transformation. *)
Theorem runs_rewrite (files : list text) (w : world) :
  rewrites (fun c => fst (FixAdapterMocks.subn c))
    (files_of w) (files_of (FixAdapterMocks.main files w))
  /\ rewrites PatchContainer.disable
       (files_of w) (files_of (PatchContainer.main files w))
  /\ rewrites RevertContainerPatch.restore
       (files_of w) (files_of (RevertContainerPatch.main files w))
  /\ rewrites PatchTests.insert
       (files_of w) (files_of (PatchTests.patch_all files w)).
Proof.
  split; [|split; [|split]].
  - rewrite main_files.
    apply (loop_rewrites _ (fun st => files_of (fst st)) id FixAdapterMocks.fix_file
             remover_entry remover_entry_applies fix_file_lookup files (w, 0)).
  - apply (loop_rewrites _ files_of id PatchContainer.patch_file patch_entry
             patch_entry_applies patch_file_lookup files w).
  - apply (loop_rewrites _ files_of id RevertContainerPatch.revert_file revert_entry
             revert_entry_applies revert_file_lookup files w).
  - apply (loop_rewrites _ files_of PatchTests.filepath_of PatchTests.patch_file
             inserter_entry inserter_entry_applies inserter_file_lookup files w).
Qed.
End DiskHost.

(** ** What the Remover deletes *)

(** Whether a text begins with a character of the class [p]. *)
Definition begins (p : N -> bool) (s : text) : bool :=
  match s with
  | c :: _ => p c
  | [] => false
  end.

Section Greedy.
Context {A : Type}.

Lemma run_lits_app (k : text -> option A) w z : run (lits w) k (w ++ z) = k z.
Proof.
  induction w as [|a w IH]; [reflexivity|].
  cbn [lits fold_right app run]. rewrite N.eqb_refl. exact IH.
Qed.

(** The star takes all it can when what follows then matches. *)
Lemma star_greedy p (k : text -> option A) u s x :
  forallb p u = true -> begins p s = false -> k s = Some x ->
  star p k (u ++ s) = Some x.
Proof.
  intros Hu Hs Hk. induction u as [|b u IH]; cbn [app].
  - destruct s as [|c s]; cbn [star]; [exact Hk|].
    cbn [begins] in Hs. rewrite Hs. exact Hk.
  - cbn [forallb] in Hu. apply andb_true_iff in Hu as [Hb Hu].
    cbn [star]. rewrite Hb, (IH Hu). reflexivity.
Qed.
End Greedy.

Section Removal.
Context {H : Host}.
Import FixAdapterMocks.

Lemma group1_split :
  group1 = Cat (lits (opening ++ target ++ [46%N]))
               (Cat (Cat (Cls is_word) (Star is_word)) (Cat (lits closing) Eps)).
Proof. reflexivity. Qed.

Lemma tail_split :
  tail = Cat (lits (txt "expect.any(String),")) (Cat (Star is_space) Eps).
Proof. reflexivity. Qed.

Lemma other_call_target m :
  other_call target m = (opening ++ target ++ [46%N]) ++ m ++ closing.
Proof. unfold other_call. rewrite <- !app_assoc. reflexivity. Qed.

(** A match is a call on [userMgmtAdapterMock] with a member name, then
    the placeholder with its comma and blanks. *)
Lemma match_at_shape s s1 s2 :
  match_at s = Some (s1, s2) ->
  exists m ws,
    s = other_call target m ++ s1 /\ s1 = held ws ++ s2
    /\ m <> [] /\ forallb is_word m = true /\ forallb is_space ws = true.
Proof.
  unfold match_at. rewrite group1_split. cbn [run]. intros Hm.
  apply run_lits in Hm as (r1 & -> & Hm).
  apply run_cls in Hm as (b & r2 & -> & Hb & Hm).
  apply star_inv in Hm as (u & r3 & -> & Hu & Hm).
  apply run_lits in Hm as (r4 & -> & Hm).
  rewrite tail_split in Hm. cbn [run] in Hm.
  apply run_lits in Hm as (r5 & Hr4 & Hm).
  apply star_inv in Hm as (ws & r6 & -> & Hws & [= <- <-]).
  exists (b :: u), ws. rewrite other_call_target. unfold held.
  repeat split.
  - repeat rewrite <- ?app_assoc, <- ?app_comm_cons. reflexivity.
  - rewrite <- app_assoc. exact Hr4.
  - discriminate.
  - cbn [forallb]. rewrite Hb, Hu. reflexivity.
  - exact Hws.
Qed.

Lemma find_shape s rep n :
  find s = Some (rep, n) ->
  exists m ws s2,
    s = other_call target m ++ held ws ++ s2
    /\ rep = other_call target m
    /\ n = length (other_call target m ++ held ws)
    /\ m <> [] /\ forallb is_word m = true /\ forallb is_space ws = true.
Proof.
  unfold find. destruct (match_at s) as [[s1 s2]|] eqn:E; [|discriminate].
  intros [= <- <-].
  destruct (match_at_shape s s1 s2 E) as (m & ws & -> & -> & Hm & Hw & Hws).
  exists m, ws, s2. repeat split; try assumption.
  - replace (length (other_call target m ++ held ws ++ s2) - length (held ws ++ s2))
      with (length (other_call target m)) by (rewrite !length_app; lia).
    apply take_app_length.
  - rewrite !length_app. lia.
Qed.

(** [removal s s' n]: [s'] is [s] without [n] placeholders, each of
    which stood, with its comma and the blanks after it, right behind
    the opening parenthesis of a call on [userMgmtAdapterMock]. *)
Inductive removal : text -> text -> nat -> Prop :=
| removal_nil : removal [] [] 0
| removal_copy c s s' n : removal s s' n -> removal (c :: s) (c :: s') n
| removal_site m ws s s' n :
    m <> [] -> forallb is_word m = true -> forallb is_space ws = true ->
    removal s s' n ->
    removal (other_call target m ++ held ws ++ s) (other_call target m ++ s') (S n).

Lemma other_call_length mk member : 0 < length (other_call mk member).
Proof. unfold other_call. rewrite length_app. unfold opening. simpl. lia. Qed.

Lemma held_length ws : length (held ws) = 19 + length ws.
Proof. unfold held. rewrite length_app. reflexivity. Qed.

Lemma remover_sound_aux (content : text) :
  removal content (fst (subn content)) (snd (subn content)).
Proof.
  unfold subn. remember (length content) as k eqn:Hk. revert content Hk.
  induction k as [k IH] using lt_wf_ind. intros content ->.
  destruct (find content) as [[rep n]|] eqn:E.
  - destruct (find_shape content rep n E) as (m & ws & s2 & -> & -> & -> & Hm & Hw & Hws).
    pose proof (other_call_length target m) as Hpos.
    rewrite (scan_hit find _ _ _ E) by (rewrite !length_app in *; lia).
    rewrite app_assoc, drop_app_length. unfold emit. cbn [fst snd].
    rewrite <- app_assoc. apply removal_site; try assumption.
    apply (IH (length s2)); [rewrite !length_app; lia | reflexivity].
  - destruct content as [|c s].
    + cbn [scan]. rewrite E. apply removal_nil.
    + rewrite (scan_miss find c s E). unfold copy. cbn [fst snd].
      apply removal_copy, (IH (length s)); [simpl; lia | reflexivity].
Qed.

(** X4.  Every deletion the Remover makes is of that form, and the
    count it reports is the number of deletions: it deletes nothing
    else and rewrites nothing. *)
Theorem remover_sound (content : text) :
  removal content (fst (subn content)) (snd (subn content)).
Proof. exact (remover_sound_aux content). Qed.

Lemma removal_length s s' n : removal s s' n -> length s' + 19 * n <= length s.
Proof.
  induction 1 as [|c s s' n _ IH|m ws s s' n _ _ _ _ IH]; cbn [length]; [lia|lia|].
  rewrite !length_app, held_length. lia.
Qed.

Lemma removal_none s s' : removal s s' 0 -> s' = s.
Proof.
  remember 0 as n eqn:Hn. induction 1 as [|c s s' n _ IH|]; [reflexivity| |discriminate].
  rewrite (IH Hn). reflexivity.
Qed.

(** X5.  The Remover's output is never longer than its input, each fix
    makes it at least nineteen characters shorter, and the count of
    fixes is zero exactly when the output is the input: the file is
    written back exactly when its content has changed. *)
Theorem remover_count (content : text) :
  length (fst (subn content)) + 19 * snd (subn content) <= length content
  /\ (snd (subn content) = 0 <-> fst (subn content) = content).
Proof.
  pose proof (remover_sound_aux content) as Hr.
  split; [apply removal_length, Hr|]. split.
  - intros Hz. rewrite Hz in Hr. apply removal_none, Hr.
  - intros Heq. apply removal_length in Hr. rewrite Heq in Hr. lia.
Qed.

(** X6.  At a call on [userMgmtAdapterMock] with a member name, the
    Remover deletes the placeholder, its comma and all the blanks up to
    the first character that is not a blank, keeps the call, and goes
    on with what follows. *)
Theorem remover_at_target (m ws suf : text) :
  m <> [] -> forallb is_word m = true -> forallb is_space ws = true ->
  begins is_space suf = false ->
  subn (other_call target m ++ held ws ++ suf)
  = (other_call target m ++ fst (subn suf), S (snd (subn suf))).
Proof.
  intros Hm Hw Hws Hsuf.
  assert (Hmatch : match_at (other_call target m ++ held ws ++ suf)
                   = Some (held ws ++ suf, suf)).
  { unfold match_at. rewrite group1_split, other_call_target.
    set (head := opening ++ target ++ [46%N]). rewrite <- !app_assoc.
    cbn [run]. rewrite run_lits_app.
    destruct m as [|b m]; [congruence|]. cbn [forallb] in Hw.
    apply andb_true_iff in Hw as [Hb Hw]. cbn [app]. rewrite Hb.
    apply star_greedy; [exact Hw | vm_compute; reflexivity |].
    rewrite run_lits_app, tail_split. cbn [run]. unfold held.
    rewrite <- app_assoc, run_lits_app.
    apply star_greedy; [exact Hws | exact Hsuf | reflexivity]. }
  unfold subn.
  rewrite (scan_hit find (other_call target m)
             (length (other_call target m ++ held ws))).
  - rewrite app_assoc, drop_app_length. reflexivity.
  - unfold find. rewrite Hmatch. f_equal. f_equal.
    + replace (length (other_call target m ++ held ws ++ suf) - length (held ws ++ suf))
        with (length (other_call target m)) by (rewrite !length_app; lia).
      apply take_app_length.
    + rewrite !length_app. lia.
  - pose proof (other_call_length target m). rewrite !length_app in *. lia.
Qed.
End Removal.

(** ** What the Inserter adds *)
Section Known.
Context {H : Host}.
Import PatchTests.

Lemma closing_paren : closing = txt ").toHaveBeenCalledWith" ++ [paren].
Proof. reflexivity. Qed.

(** A call, cut before the parenthesis that opens its arguments. *)
Lemma other_call_paren mk member suf :
  other_call mk member ++ suf
  = (opening ++ mk ++ 46%N :: member ++ txt ").toHaveBeenCalledWith") ++ paren :: suf.
Proof.
  unfold other_call. rewrite closing_paren.
  repeat rewrite <- ?app_assoc, <- ?app_comm_cons. reflexivity.
Qed.

Lemma match_at_split2 s :
  match_at s
  = run (seq before_paren)
      (run (Chr paren)
         (run (seq [Star is_space; any_of mocks])
            (run (Chr 46)
               (run (Plus is_word)
                  (run (seq [Star is_space; Chr 41; lit ".toHaveBeenCalledWith";
                             Star is_space])
                     (run (Chr paren) Some)))))) s.
Proof. reflexivity. Qed.

(** From the member name on. *)
Lemma member_matched member suf :
  member <> [] -> forallb is_word member = true ->
  run (Plus is_word)
    (run (seq [Star is_space; Chr 41; lit ".toHaveBeenCalledWith"; Star is_space])
       (run (Chr paren) Some))
    (member ++ closing ++ suf)
  = Some suf.
Proof.
  intros Hm Hw. destruct member as [|b m]; [congruence|].
  cbn [forallb] in Hw. apply andb_true_iff in Hw as [Hb Hw].
  cbn [Plus run app]. rewrite Hb.
  apply star_greedy; [exact Hw | vm_compute; reflexivity | vm_compute; reflexivity].
Qed.

(** Up to the dot after the mock's name, for each name of the list. *)
Lemma mock_matched (mk : string) (k : text -> option text) z x :
  In mk mocks -> k z = Some x ->
  run (seq before_paren)
    (run (Chr paren) (run (seq [Star is_space; any_of mocks]) (run (Chr 46) k)))
    (opening ++ txt mk ++ 46%N :: z)
  = Some x.
Proof.
  intros Hin Hk. unfold mocks in Hin.
  repeat (destruct Hin as [<-|Hin]; [vm_compute; rewrite Hk; reflexivity|]).
  destruct Hin.
Qed.

Lemma known_call_matched (mk : string) member suf :
  In mk mocks -> member <> [] -> forallb is_word member = true ->
  match_at (other_call (txt mk) member ++ suf) = Some suf.
Proof.
  intros Hin Hm Hw. rewrite match_at_split2. unfold other_call.
  repeat rewrite <- ?app_assoc, <- ?app_comm_cons.
  apply mock_matched; [exact Hin|]. apply member_matched; assumption.
Qed.

(** X7.  At a call on one of the known mocks, with a member name,
    [pattern.sub] puts the placeholder right behind the opening
    parenthesis; and, in a text that holds no doubled placeholder and no
    dangling separator, the Inserter as a whole adds nothing if a
    placeholder is there already, a bare placeholder if the argument
    list is empty, and the placeholder with its separator otherwise. *)
Theorem inserter_at_known (mk : string) (member suf : text) :
  In mk mocks -> member <> [] -> forallb is_word member = true ->
  sub (other_call (txt mk) member ++ suf)
  = other_call (txt mk) member ++ placeholder ++ sub suf
  /\ (contains doubled (other_call (txt mk) member ++ suf) = false ->
      contains dangling (other_call (txt mk) member ++ suf) = false ->
      insert (other_call (txt mk) member ++ suf)
      = other_call (txt mk) member ++ settle suf ++ insert suf).
Proof.
  intros Hin Hm Hw.
  pose proof (known_call_matched mk member suf Hin Hm Hw) as Hmatch.
  rewrite other_call_paren in Hmatch. split.
  - rewrite (other_call_paren _ _ suf), (other_call_paren _ _ (placeholder ++ sub suf)).
    rewrite sub_weave, (weave_site _ _ _ Hmatch). reflexivity.
  - intros Hd Hg. rewrite (insert_weave _ Hd Hg).
    rewrite (other_call_paren _ _ suf) in Hd, Hg |- *.
    rewrite (other_call_paren _ _ (settle suf ++ insert suf)).
    rewrite (weave_site _ _ _ Hmatch), (insert_weave suf); [reflexivity| |].
    + eapply contains_false_app_r.
      change (paren :: suf) with ([paren] ++ suf) in Hd. rewrite app_assoc in Hd. exact Hd.
    + eapply contains_false_app_r.
      change (paren :: suf) with ([paren] ++ suf) in Hg. rewrite app_assoc in Hg. exact Hg.
Qed.

(** X8.  In a text that holds no doubled placeholder and no dangling
    separator, the Inserter's output is the input with, behind every
    match of the pattern, what [settle] says: the two clean-up
    replacements then touch nothing but the placeholders just put in. *)
Theorem inserter_sitewise (t : text) :
  contains doubled t = false -> contains dangling t = false ->
  insert t = weave settle t.
Proof. apply insert_weave. Qed.
End Known.

(** ** Calls on mocks the Inserter does not know *)
Section StableAlt.
Context {A : Type}.
Variable y : text.
Variable R : A -> A -> Prop.

Lemma stable_alt r1 r2 (k k' : text -> option A) :
  stable y R (run r1 k) (run r1 k') -> stable y R (run r2 k) (run r2 k') ->
  stable y R (run (Alt r1 r2) k) (run (Alt r1 r2) k').
Proof.
  intros H1 H2 v. cbn [run]. specialize (H1 v). specialize (H2 v).
  destruct (run r1 k (v ++ y)), (run r1 k' v); simpl in H1; try contradiction; auto.
Qed.
End StableAlt.

Section Unknown.
Context {H : Host}.
Import PatchTests.

(** A character of a name: a word character that is not a blank. *)
Definition name_char (c : N) : bool := is_word c && negb (is_space c).

Ltac unfold_pattern r :=
  let r' := eval cbv -[is_word is_space] in r in change r with r'.

Ltac stable_steps :=
  repeat first
    [ simple apply stable_cat
    | simple apply stable_eps
    | simple apply stable_alt
    | simple apply stable_chr; [ | vm_compute; reflexivity ]
    | simple apply stable_cls; [ | vm_compute; reflexivity ]
    | simple apply stable_star; [ | vm_compute; exact I ] ].

Lemma inserter_match_stable y' v :
  v <> [] ->
  agree (fun x x' => x = x' ++ opening ++ y')
    (match_at (v ++ opening ++ y')) (match_at v).
Proof.
  destruct v as [|b v]; [congruence|]. intros _.
  unfold match_at. unfold_pattern pattern. cbn [app]. rewrite !run_cat_chr.
  destruct (N.eqb b 101); [|exact I].
  revert v.
  match goal with
  | |- forall v, agree ?R (?k (v ++ ?y)) (?k' v) => change (stable y R k k')
  end.
  stable_steps; intros v; reflexivity.
Qed.

Lemma inserter_find_nil : find [] = None.
Proof. vm_compute. reflexivity. Qed.

Lemma inserter_find_within v rep n : find v = Some (rep, n) -> n <= length v.
Proof.
  unfold find. destruct (match_at v); [|discriminate]. intros [= _ <-]. lia.
Qed.

(** Followed by the start of another call, a text is matched where, and
    as far as, it is matched on its own. *)
Lemma inserter_find_stable y' v : v <> [] -> find (v ++ opening ++ y') = find v.
Proof.
  intros Hv. pose proof (inserter_match_stable y' v Hv) as Hm. unfold find.
  destruct (match_at (v ++ opening ++ y')) as [x|], (match_at v) as [x'|];
    simpl in Hm; try contradiction; [|reflexivity].
  subst x. cbv zeta.
  assert (Hsub : forall a b c, a + c - (b + c) = a - b) by (intros; lia).
  rewrite !(length_app _ (opening ++ y')), !Hsub.
  rewrite take_app_le by lia. reflexivity.
Qed.

Lemma opens_inv s :
  opens s = true ->
  exists c t, s = txt "expect" ++ c :: t /\ (is_space c || N.eqb c paren) = true.
Proof.
  unfold opens. intros [Hs Hc]%andb_true_iff.
  apply starts_with_true in Hs as [z ->].
  change (drop 6 (txt "expect" ++ z)) with z in Hc.
  destruct z as [|c t]; [discriminate|]. eauto.
Qed.

Lemma match_opens s rest : match_at s = Some rest -> opens s = true.
Proof.
  intros Hm. destruct (match_shape s rest Hm) as (m0 & -> & _ & Hop). apply Hop.
Qed.

(** No match opens inside a name closed by a dot or by a closing
    parenthesis. *)
Lemma match_in_name x c z i :
  forallb name_char x = true -> c = 46%N \/ c = 41%N ->
  match_at (drop i x ++ c :: z) = None.
Proof.
  intros Hx Hc. destruct (match_at _) as [rest|] eqn:E; [|reflexivity]. exfalso.
  apply match_opens, opens_inv in E as (c7 & t & E & Hc7).
  assert (Hs : starts_with (txt "expect" ++ [c7]) (drop i x ++ c :: z) = true).
  { rewrite E. change (txt "expect" ++ c7 :: t) with (txt "expect" ++ [c7] ++ t).
    rewrite app_assoc. apply starts_with_app. }
  apply (starts_with_block name_char) in Hs; [|apply forallb_drop, Hx].
  destruct Hs as [Hall | Hin].
  - rewrite forallb_app in Hall. apply andb_true_iff in Hall as [_ Hall].
    cbn [forallb] in Hall. rewrite andb_true_r in Hall. unfold name_char in Hall.
    apply andb_true_iff in Hall as [Hw Hns]. apply negb_true_iff in Hns.
    rewrite Hns in Hc7. cbn [orb] in Hc7. apply N.eqb_eq in Hc7 as ->.
    vm_compute in Hw. discriminate.
  - apply in_app_or in Hin as [Hin | [<- | []]].
    + destruct Hc as [-> | ->]; vm_compute in Hin; intuition discriminate.
    + destruct Hc as [-> | ->]; vm_compute in Hc7; discriminate.
Qed.

Lemma run_any_of {A} (ws : list string) (k : text -> option A) s x :
  ws <> [] -> run (any_of ws) k s = Some x ->
  exists w s', In w ws /\ s = txt w ++ s' /\ k s' = Some x.
Proof.
  induction ws as [|w ws IH]; intros Hne Hr; [congruence|].
  destruct ws as [|w' ws].
  - cbn [any_of] in Hr. rewrite lit_lits in Hr.
    apply run_lits in Hr as (s' & -> & Hk). exists w, s'. split; [left|]; auto.
  - change (any_of (w :: w' :: ws)) with (Alt (lit w) (any_of (w' :: ws))) in Hr.
    cbn [run] in Hr. destruct (run (lit w) k s) as [x0|] eqn:E.
    + injection Hr as ->. rewrite lit_lits in E.
      apply run_lits in E as (s' & -> & Hk). exists w, s'. split; [left|]; auto.
    + destruct (IH ltac:(discriminate) Hr) as (w0 & s' & Hin & -> & Hk).
      exists w0, s'. split; [right|]; auto.
Qed.

Lemma no_blank_prefix (u x : text) c s' z :
  forallb is_space u = true -> forallb name_char x = true -> is_space c = false ->
  u ++ s' = x ++ c :: z -> u = [].
Proof.
  intros Hu Hx Hc Heq. destruct u as [|b u]; [reflexivity|]. exfalso.
  cbn [forallb] in Hu. apply andb_true_iff in Hu as [Hb _].
  destruct x as [|a x]; cbn [app] in Heq; injection Heq as -> _.
  - congruence.
  - cbn [forallb] in Hx. apply andb_true_iff in Hx as [Ha _].
    unfold name_char in Ha. rewrite Hb in Ha. rewrite andb_false_r in Ha. discriminate.
Qed.

Lemma mocks_dotless w : In w mocks -> ~ In 46%N (txt w).
Proof.
  unfold mocks. intros Hin.
  repeat (destruct Hin as [<-|Hin]; [vm_compute; intuition discriminate|]).
  destruct Hin.
Qed.

Lemma name_dotless x : forallb name_char x = true -> ~ In 46%N x.
Proof.
  intros Hx Hin. apply (proj1 (forallb_forall _ _) Hx) in Hin.
  vm_compute in Hin. discriminate.
Qed.

(** A name that is not in the list is not matched. *)
Lemma unknown_not_matched mk z :
  forallb name_char mk = true -> (forall w, In w mocks -> txt w <> mk) ->
  match_at (opening ++ mk ++ 46%N :: z) = None.
Proof.
  intros Hmk Hun. destruct (match_at _) as [rest|] eqn:E; [|reflexivity]. exfalso.
  rewrite match_at_split2 in E.
  change (run (lits (txt "expect"))
            (run (Star is_space)
               (run (Chr paren)
                  (run (Star is_space)
                     (run (any_of mocks)
                        (run (Chr 46)
                           (run (Plus is_word)
                              (run (seq [Star is_space; Chr 41;
                                         lit ".toHaveBeenCalledWith"; Star is_space])
                                 (run (Chr paren) Some))))))))
            (txt "expect" ++ paren :: mk ++ 46%N :: z) = Some rest) in E.
  apply run_lits in E as (s1 & Hs1 & E). apply app_inv_head in Hs1. subst s1.
  apply star_inv in E as (u & s2 & Hu & Hsp & E).
  symmetry in Hu. pose proof (no_blank_prefix u [] paren s2 _ Hsp eq_refl eq_refl Hu) as ->.
  cbn [app] in Hu. subst s2.
  apply run_chr in E as (s3 & [= <-] & E).
  apply star_inv in E as (u & s4 & Hu & Hsp' & E).
  symmetry in Hu.
  pose proof (no_blank_prefix u mk 46%N s4 z Hsp' Hmk eq_refl Hu) as ->.
  cbn [app] in Hu. subst s4.
  apply run_any_of in E as (w & s5 & Hin & Hw & E); [|discriminate].
  apply run_chr in E as (s6 & -> & _).
  apply (Hun w Hin).
  apply (starts_with_closed (txt w) mk 46%N z);
    [apply mocks_dotless, Hin | apply name_dotless, Hmk |].
  rewrite Hw. change (46%N :: s6) with ([46%N] ++ s6).
  rewrite app_assoc. apply starts_with_app.
Qed.

(** A call on such a mock, up to the parenthesis that opens its
    arguments, is copied by [pattern.sub]. *)
Lemma unknown_call_copied mk member suf :
  forallb name_char mk = true -> (forall w, In w mocks -> txt w <> mk) ->
  forallb name_char member = true ->
  scan find 0 (other_call mk member ++ suf)
  = (other_call mk member ++ fst (scan find 0 suf), snd (scan find 0 suf)).
Proof.
  intros Hmk Hun Hmem. unfold other_call.
  assert (Hnone : forall s, match_at s = None -> find s = None).
  { intros s Hs. unfold find. rewrite Hs. reflexivity. }
  repeat rewrite <- ?app_assoc, <- ?app_comm_cons.
  rewrite scan_none.
  2:{ intros i Hi. apply Hnone. destruct i as [|i].
      - apply unknown_not_matched; assumption.
      - do 6 (destruct i as [|i]; [vm_compute; reflexivity|]).
        vm_compute in Hi. lia. }
  rewrite scan_none by (intros i _; apply Hnone, match_in_name; auto).
  rewrite (scan_miss find 46) by (vm_compute; reflexivity).
  rewrite (scan_none find member).
  2:{ intros i _. apply Hnone.
      change (closing ++ suf) with (41%N :: txt ".toHaveBeenCalledWith(" ++ suf).
      apply match_in_name; auto. }
  rewrite (scan_none find closing).
  2:{ intros i Hi. apply Hnone.
      do 23 (destruct i as [|i]; [vm_compute; reflexivity|]).
      vm_compute in Hi. lia. }
  unfold copy. cbn [fst snd]. repeat rewrite <- ?app_assoc, <- ?app_comm_cons.
  reflexivity.
Qed.

(** X9.  [pattern.sub] inserts nothing at a call on a mock whose name
    is not in the list: the call is copied, and the text before it and
    the text after it are rewritten as they would be on their own. *)
Theorem inserter_skips_unknown (pre mk member suf : text) :
  forallb name_char mk = true -> (forall w, In w mocks -> txt w <> mk) ->
  forallb name_char member = true ->
  sub (pre ++ other_call mk member ++ suf)
  = sub pre ++ other_call mk member ++ sub suf.
Proof.
  intros Hmk Hun Hmem. unfold sub.
  pose (y' := mk ++ 46%N :: member ++ closing ++ suf).
  assert (Hy : other_call mk member ++ suf = opening ++ y').
  { unfold other_call, y'. repeat rewrite <- ?app_assoc, <- ?app_comm_cons. reflexivity. }
  rewrite Hy.
  rewrite (scan_app find (opening ++ y') inserter_find_nil (inserter_find_stable y')
             inserter_find_within).
  rewrite <- Hy, unknown_call_copied by assumption.
  cbn [fst snd]. reflexivity.
Qed.
End Unknown.

(** ** The manifest of the Inserter *)
Section Manifest.
Context {H : Host}.
Import PatchTests.

Lemma lstrip_split s : exists u, s = u ++ lstrip s /\ forallb is_space u = true.
Proof.
  induction s as [|c s (u & IH & Hu)]; [exists []; split; reflexivity|].
  cbn [lstrip]. destruct (is_space c) eqn:Ec.
  - exists (c :: u). cbn [app forallb]. rewrite Ec, Hu, <- IH. split; reflexivity.
  - exists []. split; reflexivity.
Qed.

Lemma lstrip_head s c t : lstrip s = c :: t -> is_space c = false.
Proof.
  induction s as [|a s IH]; [discriminate|].
  cbn [lstrip]. destruct (is_space a) eqn:Ea; [exact IH|].
  intros [= <- _]. exact Ea.
Qed.

Lemma lstrip_blank s : forallb is_space s = true -> lstrip s = [].
Proof.
  induction s as [|c s IH]; [reflexivity|].
  cbn [forallb lstrip]. intros [-> Hs]%andb_true_iff. apply IH, Hs.
Qed.

(** [strip] cuts a run of blanks off each end. *)
Lemma strip_split s :
  exists u v, s = u ++ strip s ++ v
              /\ forallb is_space u = true /\ forallb is_space v = true.
Proof.
  destruct (lstrip_split s) as (u & Hs & Hu).
  destruct (lstrip_split (rev (lstrip s))) as (v & Ht & Hv).
  exists u, (rev v). split; [|split; [exact Hu|]].
  - unfold strip. rewrite <- rev_app_distr, <- Ht, rev_involutive. exact Hs.
  - rewrite forallb_forall in *. intros c Hc%in_rev. apply Hv, Hc.
Qed.

Lemma strip_lstrip s : exists v, lstrip s = strip s ++ v.
Proof.
  destruct (lstrip_split (rev (lstrip s))) as (v & Ht & _).
  exists (rev v). unfold strip. rewrite <- rev_app_distr, <- Ht, rev_involutive.
  reflexivity.
Qed.

Lemma strip_head s c : head (strip s) = Some c -> is_space c = false.
Proof.
  destruct (strip_lstrip s) as (v & Ht).
  destruct (strip s) as [|a x]; [discriminate|]. intros [= ->].
  apply (lstrip_head s c (x ++ v)). exact Ht.
Qed.

Lemma strip_last s c : last (strip s) = Some c -> is_space c = false.
Proof.
  unfold strip. destruct (lstrip (rev (lstrip s))) as [|a x] eqn:E; [discriminate|].
  cbn [rev]. rewrite last_snoc. intros [= ->]. apply (lstrip_head _ _ _ E).
Qed.

Lemma strip_blank s : forallb is_space s = true -> strip s = [].
Proof. intros Hs. unfold strip. rewrite (lstrip_blank s Hs). reflexivity. Qed.

(** A line of [splitlines] is a piece of the text that holds no line
    boundary. *)
Lemma splitlines_go_piece cur after_cr s l :
  (after_cr = true -> cur = []) ->
  forallb (fun c => negb (is_linebreak c)) cur = true ->
  In l (splitlines_go cur after_cr s) ->
  (exists a b, rev cur ++ s = a ++ l ++ b)
  /\ forallb (fun c => negb (is_linebreak c)) l = true.
Proof.
  revert cur after_cr. induction s as [|c s IH]; intros cur after_cr Hcr Hcur Hl.
  - cbn [splitlines_go] in Hl. destruct cur as [|x cur]; [destruct Hl|].
    destruct Hl as [<-|[]]. split.
    + exists [], []. rewrite !app_nil_r. reflexivity.
    + rewrite forallb_forall in *. intros y Hy%in_rev. apply Hcur, Hy.
  - cbn [splitlines_go] in Hl.
    destruct (after_cr && N.eqb c 10) eqn:Eskip.
    { apply andb_true_iff in Eskip as [-> _]. rewrite (Hcr eq_refl) in *.
      destruct (IH [] false (fun E => eq_refl) eq_refl Hl) as ((a & b & Hs) & Hok).
      split; [|exact Hok]. cbn [rev app] in *.
      exists (c :: a), b. rewrite Hs. reflexivity. }
    destruct (is_linebreak c) eqn:Ebr.
    + destruct Hl as [<-|Hl].
      * split.
        -- exists [], (c :: s). reflexivity.
        -- rewrite forallb_forall in *. intros y Hy%in_rev. apply Hcur, Hy.
      * destruct (IH [] _ (fun E => eq_refl) eq_refl Hl) as ((a & b & Hs) & Hok).
        split; [|exact Hok]. cbn [rev app] in Hs.
        exists (rev cur ++ c :: a), b. rewrite Hs, <- app_assoc. reflexivity.
    + assert (Hcur' : forallb (fun c => negb (is_linebreak c)) (c :: cur) = true).
      { cbn [forallb]. rewrite Ebr, Hcur. reflexivity. }
      destruct (IH (c :: cur) false (fun E => ltac:(discriminate)) Hcur' Hl)
        as ((a & b & Hs) & Hok).
      split; [|exact Hok]. exists a, b. rewrite <- Hs. cbn [rev].
      rewrite <- app_assoc. reflexivity.
Qed.

Lemma splitlines_piece s l :
  In l (splitlines s) ->
  (exists a b, s = a ++ l ++ b)
  /\ forallb (fun c => negb (is_linebreak c)) l = true.
Proof.
  intros Hl.
  apply (splitlines_go_piece [] false s l (fun E => eq_refl) eq_refl Hl).
Qed.

Lemma manifest_paths_elem content f :
  f ∈ manifest_paths content <->
  exists l, In l (splitlines content) /\ strip l = f /\ f <> [].
Proof.
  unfold manifest_paths.
  rewrite elem_of_list_to_set, list_elem_of_In, in_map_iff. split.
  - intros (l & <- & Hl%list_elem_of_In%list_elem_of_filter).
    destruct Hl as [Hne Hl%list_elem_of_In]. eauto.
  - intros (l & Hl & <- & Hne). exists l. split; [reflexivity|].
    apply list_elem_of_In, list_elem_of_filter. split; [exact Hne|].
    apply list_elem_of_In, Hl.
Qed.

(** X10.  Every path the Inserter takes from the manifest is a piece of
    the manifest's text that is not empty, neither begins nor ends with a
    blank, and holds no line boundary. *)
Theorem manifest_paths_clean (content f : text) :
  f ∈ manifest_paths content ->
  (exists a b, content = a ++ f ++ b)
  /\ f <> []
  /\ (exists c, head f = Some c /\ is_space c = false)
  /\ (exists c, last f = Some c /\ is_space c = false)
  /\ (forall c, In c f -> is_linebreak c = false).
Proof.
  intros (l & Hl & <- & Hne)%manifest_paths_elem.
  destruct (splitlines_piece content l Hl) as ((a & b & Hc) & Hok).
  destruct (strip_split l) as (u & v & Hs & _).
  split; [|split; [exact Hne|split; [|split]]].
  - exists (a ++ u), (v ++ b). rewrite Hc, Hs at 1.
    rewrite <- !app_assoc. reflexivity.
  - destruct (strip l) as [|c x] eqn:E; [contradiction|].
    exists c. split; [reflexivity|]. apply (strip_head l). rewrite E. reflexivity.
  - destruct (last (strip l)) as [c|] eqn:E.
    + exists c. split; [reflexivity|]. apply (strip_last l), E.
    + apply last_None in E. contradiction.
  - intros c Hc'. apply negb_true_iff.
    apply (proj1 (forallb_forall _ _) Hok). rewrite Hs.
    apply in_or_app. right. apply in_or_app. left. exact Hc'.
Qed.

Lemma blank_paths content :
  (forall c, In c content -> is_space c = true \/ is_linebreak c = true) ->
  manifest_paths content = ∅.
Proof.
  intros Hblank. apply elem_of_equiv_empty_L.
  intros f (l & Hl & <- & Hne)%manifest_paths_elem. apply Hne, strip_blank.
  destruct (splitlines_piece content l Hl) as ((a & b & Hc) & Hok).
  apply forallb_forall. intros c Hin.
  pose proof (proj1 (forallb_forall _ _) Hok c Hin) as Hbr%negb_true_iff.
  destruct (Hblank c) as [Hs|Hs]; [|exact Hs|congruence].
  rewrite Hc. apply in_or_app. right. apply in_or_app. left. exact Hin.
Qed.

(** X11.  When the manifest holds nothing but blanks and line
    boundaries, a run visits no file: it prints the closing line and
    ends, and that is the only way it can go. *)
Theorem blank_manifest (w : world) (content : text) :
  read_file (files_of w) manifest = ReadOk content ->
  (forall c, In c content -> is_space c = true \/ is_linebreak c = true) ->
  runs w (Finished (print (txt "Python test patcher finished.") w))
  /\ forall o, runs w o ->
       o = Finished (print (txt "Python test patcher finished.") w).
Proof.
  intros Hr Hblank. pose proof (blank_paths content Hblank) as He. split.
  - apply (runs_finish w content []); [exact Hr|].
    rewrite He, elements_empty. reflexivity.
  - intros o Hruns. inversion Hruns as [cause Hc | content' files Hc Hperm]; subst.
    + congruence.
    + rewrite Hr in Hc. injection Hc as <-.
      rewrite He, elements_empty in Hperm. apply Permutation_nil_r in Hperm.
      subst files. reflexivity.
Qed.
End Manifest.

(** ** Native separators *)
Section Separators.

Context {H : Host}.
Import PatchTests.

(** X12.  The path the Inserter opens is the listed path with each
    slash replaced by the platform's separator and every other character
    kept. *)
Theorem filepath_of_chars (f : text) :
  filepath_of f = flat_map (fun c => if N.eqb c 47 then os_sep else [c]) f.
Proof. exact (filepath_of_flat f). Qed.

(** X13.  Where the separator is the slash, and for a listed path
    that holds no slash, the Inserter opens the listed path itself. *)
Theorem filepath_of_same (f : text) :
  os_sep = txt "/" \/ ~ In 47%N f -> filepath_of f = f.
Proof.
  intros Hsame. rewrite filepath_of_flat.
  induction f as [|c f IH]; [reflexivity|].
  cbn [flat_map]. rewrite IH.
  - destruct (N.eqb c 47) eqn:E; [|reflexivity].
    apply N.eqb_eq in E. subst c. destruct Hsame as [->|Hf]; [reflexivity|].
    exfalso. apply Hf. left. reflexivity.
  - destruct Hsame as [Hsep|Hf]; [left; exact Hsep|].
    right. intros Hc. apply Hf. right. exact Hc.
Qed.

(** X14.  Where the separator holds no slash, the path the Inserter
    opens holds none. *)
Theorem filepath_of_native (f : text) :
  ~ In 47%N os_sep -> ~ In 47%N (filepath_of f).
Proof.
  intros Hsep. rewrite filepath_of_flat.
  induction f as [|c f IH]; [intros []|].
  cbn [flat_map]. intros [Hc|Hc]%in_app_or; [|exact (IH Hc)].
  destruct (N.eqb c 47) eqn:E; [exact (Hsep Hc)|].
  destruct Hc as [->|[]]. vm_compute in E. discriminate.
Qed.
End Separators.

(** ** What a run prints *)
Section Console.

(** A loop whose body prints at most one line, and prints one whenever
    it changes a file. *)
Lemma loop_prints {S : Type} (out : S -> list text) (fs : S -> fsys)
    (step : text -> S -> S) :
  (forall p st, exists lines,
     out (step p st) = out st ++ lines /\ length lines <= 1
     /\ (lines = [] -> fs (step p st) = fs st)) ->
  forall files st, exists lines,
    out (foldl (fun st p => step p st) st files) = out st ++ lines
    /\ length lines <= length files
    /\ (lines = [] -> fs (foldl (fun st p => step p st) st files) = fs st).
Proof.
  intros Hstep files. induction files as [|p l IH]; intros st.
  - exists []. rewrite app_nil_r. repeat split; auto.
  - cbn [foldl]. destruct (Hstep p st) as (l1 & H1 & Hn1 & Hf1).
    destruct (IH (step p st)) as (l2 & H2 & Hn2 & Hf2).
    exists (l1 ++ l2). rewrite H2, H1, <- app_assoc. split; [reflexivity|].
    split; [rewrite length_app; cbn [length]; lia|].
    intros [-> ->]%app_eq_nil. rewrite Hf2, Hf1; reflexivity.
Qed.

Ltac one_line :=
  eexists [_]; cbn [print stdout files_of];
  split; [reflexivity | split; [cbn [length]; lia | discriminate]].
Ltac no_line :=
  exists []; rewrite app_nil_r;
  split; [reflexivity | split; [cbn [length]; lia | reflexivity]].

Lemma patch_file_prints p w : exists lines,
  stdout (PatchContainer.patch_file p w) = stdout w ++ lines /\ length lines <= 1
  /\ (lines = [] -> files_of (PatchContainer.patch_file p w) = files_of w).
Proof.
  unfold PatchContainer.patch_file.
  destruct (read_file _ _) as [content|e]; [|one_line].
  destruct (contains _ _); [|no_line].
  destruct (write_file _ _ _); one_line.
Qed.

Lemma revert_file_prints p w : exists lines,
  stdout (RevertContainerPatch.revert_file p w) = stdout w ++ lines /\ length lines <= 1
  /\ (lines = [] -> files_of (RevertContainerPatch.revert_file p w) = files_of w).
Proof.
  unfold RevertContainerPatch.revert_file.
  destruct (read_file _ _) as [content|e]; [|one_line].
  destruct (contains _ _); [|no_line].
  destruct (write_file _ _ _); one_line.
Qed.

Context {H : Host}.

Lemma fix_file_prints p (st : world * nat) : exists lines,
  stdout (fst (FixAdapterMocks.fix_file p st)) = stdout (fst st) ++ lines
  /\ length lines <= 1
  /\ (lines = [] ->
      files_of (fst (FixAdapterMocks.fix_file p st)) = files_of (fst st)).
Proof.
  destruct st as [w total]. unfold FixAdapterMocks.fix_file. cbn [fst].
  destruct (read_file _ _) as [content|e]; [|cbn [fst]; one_line].
  destruct (FixAdapterMocks.subn content) as [new n].
  destruct (0 <? n); [|cbn [fst]; no_line].
  destruct (write_file _ _ _); cbn [fst]; one_line.
Qed.

Lemma inserter_file_prints f w : exists lines,
  stdout (PatchTests.patch_file f w) = stdout w ++ lines /\ length lines <= 1
  /\ (lines = [] -> files_of (PatchTests.patch_file f w) = files_of w).
Proof.
  unfold PatchTests.patch_file. cbv zeta.
  destruct (negb _); [one_line|].
  destruct (read_file _ _) as [content|e]; [|one_line].
  destruct (decide _); [no_line|].
  destruct (write_file _ _ _); one_line.
Qed.

(** X15.  Given paths the console can print, a run of any of the four
    scripts keeps what was printed before it, prints at most one line
    for each path it is given and then, for the Disabler, the Restorer
    and the Remover, its closing line; and a run that prints no line for
    any path leaves every file as it was. *)
Theorem runs_report (files : list text) (w : world) :
  Forall (fun p => printable p = true) files ->
  (exists lines,
     stdout (PatchContainer.main files w)
     = stdout w ++ lines ++ [txt "Container patching complete."]
     /\ length lines <= length files
     /\ (lines = [] -> files_of (PatchContainer.main files w) = files_of w))
  /\ (exists lines,
        stdout (RevertContainerPatch.main files w)
        = stdout w ++ lines ++ [txt "Revert complete."]
        /\ length lines <= length files
        /\ (lines = [] -> files_of (RevertContainerPatch.main files w) = files_of w))
  /\ (exists lines total,
        stdout (FixAdapterMocks.main files w)
        = stdout w ++ lines
          ++ [10%N :: txt "Total adapter mock fixes: " ++ str_of_nat total]
        /\ length lines <= length files
        /\ (lines = [] -> files_of (FixAdapterMocks.main files w) = files_of w))
  /\ (exists lines,
        stdout (PatchTests.patch_all files w) = stdout w ++ lines
        /\ length lines <= length files
        /\ (lines = [] -> files_of (PatchTests.patch_all files w) = files_of w)).
Proof.
  intros _. split; [|split; [|split]].
  - destruct (loop_prints stdout files_of PatchContainer.patch_file
                patch_file_prints files w) as (lines & Ho & Hn & Hf).
    exists lines. unfold PatchContainer.main. cbn [print stdout files_of].
    rewrite Ho, <- app_assoc. auto.
  - destruct (loop_prints stdout files_of RevertContainerPatch.revert_file
                revert_file_prints files w) as (lines & Ho & Hn & Hf).
    exists lines. unfold RevertContainerPatch.main. cbn [print stdout files_of].
    rewrite Ho, <- app_assoc. auto.
  - destruct (loop_prints (fun st => stdout (fst st)) (fun st => files_of (fst st))
                FixAdapterMocks.fix_file fix_file_prints files (w, 0))
      as (lines & Ho & Hn & Hf).
    unfold FixAdapterMocks.main.
    destruct (foldl _ _ _) as [w' total]. cbn [fst] in *.
    exists lines, total. cbn [print stdout files_of].
    rewrite Ho, <- app_assoc. auto.
  - apply (loop_prints stdout files_of PatchTests.patch_file inserter_file_prints).
Qed.
End Console.

(** ** The Remover's total *)
Section Total.
Context {H : Host}.
Import FixAdapterMocks.






End Total.

(** ** Further concrete runs *)

Definition reset_line : text := txt "beforeEach(() => { container.reset(); });".

Definition other_spec : text := txt "tests/unit/b.spec.ts".

Definition container_world : world :=
  World (<[ other_spec := File (ReadOk plain) None ]>
           {[ spec_path := File (ReadOk reset_line) None ]}) [].

Lemma container_world_no_cr : no_cr (files_of container_world).
Proof.
  intros p c. unfold read_file, container_world. cbn [files_of].
  destruct (decide (p = other_spec)) as [->|Hp].
  - rewrite lookup_insert_eq. cbn [on_read]. intros [= <-] Hin.
    vm_compute in Hin. intuition discriminate.
  - rewrite lookup_insert_ne by congruence.
    destruct (decide (p = spec_path)) as [->|Hq].
    + rewrite lookup_singleton_eq. cbn [on_read]. intros [= <-] Hin.
      vm_compute in Hin. intuition discriminate.
    + rewrite lookup_singleton_ne by congruence. discriminate.
Qed.

Lemma disable_then_restore_runs_witness :
  (forall p,
     read_file (files_of (RevertContainerPatch.main [other_spec; spec_path]
                            (PatchContainer.main [spec_path; other_spec] container_world))) p
     = read_file (files_of container_world) p)
  /\ no_cr (files_of (PatchContainer.main [spec_path; other_spec] container_world)).
Proof.
  apply disable_then_restore_runs.
  - apply perm_swap.
  - repeat (constructor; [vm_compute; reflexivity|]). constructor.
  - exact container_world_no_cr.
Defined.

Lemma runs_report_witness :
  (exists lines,
     stdout (PatchContainer.main [spec_path; other_spec] container_world)
     = stdout container_world ++ lines ++ [txt "Container patching complete."]
     /\ length lines <= 2
     /\ (lines = [] ->
         files_of (PatchContainer.main [spec_path; other_spec] container_world)
         = files_of container_world))
  /\ (exists lines,
        stdout (RevertContainerPatch.main [spec_path; other_spec] container_world)
        = stdout container_world ++ lines ++ [txt "Revert complete."]
        /\ length lines <= 2
        /\ (lines = [] ->
            files_of (RevertContainerPatch.main [spec_path; other_spec] container_world)
            = files_of container_world))
  /\ (exists lines total,
        stdout (FixAdapterMocks.main (H := ascii_host) [spec_path; other_spec] container_world)
        = stdout container_world ++ lines
          ++ [10%N :: txt "Total adapter mock fixes: " ++ str_of_nat total]
        /\ length lines <= 2
        /\ (lines = [] ->
            files_of (FixAdapterMocks.main (H := ascii_host) [spec_path; other_spec]
                        container_world)
            = files_of container_world))
  /\ (exists lines,
        stdout (PatchTests.patch_all (H := ascii_host) [spec_path; other_spec] container_world)
        = stdout container_world ++ lines
        /\ length lines <= 2
        /\ (lines = [] ->
            files_of (PatchTests.patch_all (H := ascii_host) [spec_path; other_spec]
                        container_world)
            = files_of container_world)).
Proof.
  apply (runs_report (H := ascii_host) [spec_path; other_spec] container_world).
  repeat (constructor; [vm_compute; reflexivity|]). constructor.
Defined.

Lemma remover_at_target_witness :
  FixAdapterMocks.subn (H := ascii_host)
    (other_call target (txt "createUser") ++ held (txt "  ") ++ txt "tenantId);")
  = (other_call target (txt "createUser")
       ++ fst (FixAdapterMocks.subn (H := ascii_host) (txt "tenantId);")),
     S (snd (FixAdapterMocks.subn (H := ascii_host) (txt "tenantId);")))).
Proof.
  apply (remover_at_target (H := ascii_host));
    try (vm_compute; reflexivity).
  intros E. vm_compute in E. discriminate E.
Defined.

Lemma inserter_at_known_witness :
  PatchTests.sub (H := ascii_host)
    (other_call policy_mock (txt "save") ++ txt "policy);")
  = other_call policy_mock (txt "save") ++ PatchTests.placeholder
      ++ PatchTests.sub (H := ascii_host) (txt "policy);")
  /\ PatchTests.insert (H := ascii_host)
       (other_call policy_mock (txt "save") ++ txt "policy);")
     = other_call policy_mock (txt "save") ++ settle (txt "policy);")
         ++ PatchTests.insert (H := ascii_host) (txt "policy);").
Proof.
  destruct (inserter_at_known (H := ascii_host) "policyRepositoryMock" (txt "save")
              (txt "policy);")) as [Hsub Hins].
  - right. left. reflexivity.
  - intros E. vm_compute in E. discriminate E.
  - vm_compute. reflexivity.
  - split; [exact Hsub | apply Hins; vm_compute; reflexivity].
Defined.

Lemma inserter_sitewise_witness :
  PatchTests.insert (H := ascii_host) once_held
  = weave (H := ascii_host) settle once_held.
Proof. apply (inserter_sitewise (H := ascii_host)); vm_compute; reflexivity. Defined.

Definition service_mock : text := txt "userAdminServiceMock".

Lemma inserter_skips_unknown_witness :
  PatchTests.sub (H := ascii_host)
    (call_line ++ other_call service_mock (txt "createUser") ++ txt "payload);")
  = PatchTests.sub (H := ascii_host) call_line
      ++ other_call service_mock (txt "createUser")
      ++ PatchTests.sub (H := ascii_host) (txt "payload);").
Proof.
  apply (inserter_skips_unknown (H := ascii_host));
    try (vm_compute; reflexivity).
  intros w Hin. unfold PatchTests.mocks in Hin.
  repeat (destruct Hin as [<-|Hin]; [intros E; vm_compute in E; discriminate E|]).
  destruct Hin.
Defined.

Lemma manifest_paths_clean_witness :
  (exists a b, listing = a ++ spec_path ++ b)
  /\ spec_path <> []
  /\ (exists c, head spec_path = Some c /\ is_space (H := ascii_host) c = false)
  /\ (exists c, last spec_path = Some c /\ is_space (H := ascii_host) c = false)
  /\ (forall c, In c spec_path -> is_linebreak c = false).
Proof.
  apply (manifest_paths_clean (H := ascii_host) listing spec_path).
  apply (manifest_paths_elem (H := ascii_host)).
  exists (txt "   tests/unit/a.spec.ts  ").
  split; [vm_compute; tauto|]. split; [vm_compute; reflexivity|].
  intros E. vm_compute in E. discriminate E.
Defined.

Definition blank_listing : text := [32; 32; 13; 10; 9; 10]%N.

Definition blank_world : world :=
  World (<[ PatchTests.manifest := File (ReadOk blank_listing) None ]>
           (files_of quiet_world)) [].

Lemma blank_manifest_witness :
  PatchTests.runs (H := ascii_host) blank_world
    (PatchTests.Finished (print (txt "Python test patcher finished.") blank_world))
  /\ forall o, PatchTests.runs (H := ascii_host) blank_world o ->
       o = PatchTests.Finished (print (txt "Python test patcher finished.") blank_world).
Proof.
  apply (blank_manifest (H := ascii_host) blank_world blank_listing).
  - unfold read_file, blank_world. simpl files_of.
    rewrite lookup_insert_eq. reflexivity.
  - intros c Hc. unfold blank_listing in Hc.
    repeat (destruct Hc as [<-|Hc]; [vm_compute; tauto|]).
    destruct Hc.
Defined.

Lemma filepath_of_same_witness :
  PatchTests.filepath_of (H := ascii_host) spec_path = spec_path.
Proof. apply (filepath_of_same (H := ascii_host)). left. reflexivity. Defined.

Lemma filepath_of_native_witness :
  ~ In 47%N (PatchTests.filepath_of (H := backslash_host) spec_path).
Proof.
  apply (filepath_of_native (H := backslash_host)).
  intros [E|[]]. vm_compute in E. discriminate E.
Defined.
